(** * uhppote-mqtt: a shallow embedding of src/bin/uhppote-mqtt.rs

    The binary bridges an MQTT broker to a UHPPOTE door controller.  We embed
    [main] (config decoding, topic derivation, credential resolution through
    the Home Assistant supervisor, subscription, discovery publish and the
    receive loop) and [handle_payload].

    Everything the program gets from the outside (the config file, the
    environment, the supervisor's HTTP reply, the broker's replies, the
    device's replies and the events polled from the event loop) is a field of
    a [World].  Effects are recorded in a trace of [Action]s, threaded by a
    small state monad that also carries the two ways [main] stops early: an
    [Err] returned from [main] (the [?] operator, [bail!]) and a panic
    ([unwrap], [expect]).  The receive loop never ends; we run it over a
    finite prefix of polled events. *)

From Stdlib Require Import ZArith List String Ascii Bool Lia.
From Stdlib Require Import Strings.Byte.
Import ListNotations.
Open Scope string_scope.
Open Scope Z_scope.

(** ** Rust values *)

Inductive result (A E : Type) : Type :=
| Ok (a : A)
| Err (e : E).
Arguments Ok {A E} a.
Arguments Err {A E} e.

(** [std::time::Duration] *)
Record Duration := mkDuration { secs : Z; nanos : Z }.

(** [uhppote_rs::DoorControlMode] and [DoorControl] *)
Inductive DoorControlMode := NormallyOpen | NormallyClosed | Controlled.

Record DoorControl := mkDoorControl { delay : Duration; mode : DoorControlMode }.

(** [rumqttc::QoS] *)
Inductive QoS := AtMostOnce | AtLeastOnce | ExactlyOnce.

(** An IP address as returned by [str::parse::<IpAddr>] (its octets). *)
Definition IpAddr := list Z.

(** [uhppote_rs::Device], as built by [Uhppoted::get_device]. *)
Record Device := mkDevice { device_id : Z; device_ip : option IpAddr }.

#[local] Set Warnings "-register-all".

(** JSON values as serde_json sees them (integers only for numbers). *)
Inductive JValue :=
| JNull
| JBool (b : bool)
| JNum (n : Z)
| JStr (s : string)
| JArr (xs : list JValue)
| JObj (entries : list (string * JValue)).

(** serde deserialisation errors *)
Inductive DeError :=
| MissingField (f : string)
| DuplicateField (f : string)
| InvalidType (f : string)
| InvalidLength (n : nat)
| TrailingCharacters
| NotAStruct.

(** The [anyhow::Error]s [main] can return. *)
Inductive Error :=
| ErrIo                     (* File::open / serde_json syntax error *)
| ErrJson (e : DeError)     (* serde data error *)
| ErrAddrParse              (* "...".parse::<IpAddr>() *)
| ErrHttp                   (* reqwest send / body error *)
| ErrHassStatus (code : Z)  (* bail!("Failed to get MQTT config from HASS: {}") *)
| ErrParseInt               (* j.port.parse::<u16>() *)
| ErrUtf8 (valid_up_to : nat)
| ErrDevice (cause : string).

(** [std::env::var] *)
Inductive VarResult := Present (v : string) | NotPresent | NotUnicode.

Definition env_is_ok (v : VarResult) : bool :=
  match v with Present _ => true | _ => false end.

Record HttpResponse := mkResponse { status : Z; body : option JValue }.

(** Events returned by [eventloop.poll()]. *)
Inductive Event :=
| EvIncomingPublish (topic : string) (payload : list byte)
| EvIncomingOther
| EvOutgoing
| EvError (msg : string).

(** Observable effects.  [ActHttpGet] is one call of reqwest's [send()]
    (the redirects its default client may follow happen inside it). *)
Inductive Action :=
| ActHttpGet (url : string) (authorization : string)
| ActSubscribe (topic : string) (qos : QoS)
| ActPublish (topic : string) (qos : QoS) (retain : bool) (payload : string)
| ActDevice (dev : Device) (door : Z) (ctl : DoorControl)
| ActLogError (e : Error)
| ActPrint (msg : string).

(** The outside world. Replies of the broker and of the device are indexed by
    the number of such calls made before. *)
Record World := mkWorld {
  w_config_file : option JValue;
  w_parse_ip : string -> option IpAddr;
  w_env : string -> VarResult;
  w_http : option HttpResponse;
  w_subscribe_ok : bool;
  w_publish_ok : nat -> bool;
  w_device : nat -> Device -> Z -> DoorControl -> result unit string;
  w_events : list Event
}.

(** ** The effect monad *)

Inductive Step (A : Type) :=
| Done (a : A)
| Exit (e : Error)
| Panic (msg : string).
Arguments Done {A} a.
Arguments Exit {A} e.
Arguments Panic {A} msg.

Definition M (A : Type) := list Action -> list Action * Step A.

Definition ret {A} (a : A) : M A := fun t => (t, Done a).

Definition bind {A B} (m : M A) (k : A -> M B) : M B :=
  fun t => match m t with
           | (t', Done a) => k a t'
           | (t', Exit e) => (t', Exit e)
           | (t', Panic s) => (t', Panic s)
           end.

Notation "x <- m ;; k" := (bind m (fun x => k))
  (at level 61, m at next level, right associativity).

Definition emit (a : Action) : M unit := fun t => (app t [a], Done tt).
Definition get_trace : M (list Action) := fun t => (t, Done t).
Definition exit {A} (e : Error) : M A := fun t => (t, Exit e).
Definition panic {A} (msg : string) : M A := fun t => (t, Panic msg).

(** [r?] in [main]. *)
Definition try {A} (r : result A Error) : M A :=
  match r with Ok a => ret a | Err e => exit e end.

(** [o.expect(msg)] *)
Definition expect {A} (o : option A) (msg : string) : M A :=
  match o with Some a => ret a | None => panic msg end.

Fixpoint count_publishes (t : list Action) : nat :=
  match t with
  | [] => 0%nat
  | ActPublish _ _ _ _ :: t' => S (count_publishes t')
  | _ :: t' => count_publishes t'
  end.

Fixpoint count_device (t : list Action) : nat :=
  match t with
  | [] => 0%nat
  | ActDevice _ _ _ :: t' => S (count_device t')
  | _ :: t' => count_device t'
  end.

(** ** [std::str::from_utf8]

    Rust accepts exactly the well-formed UTF-8 sequences: no overlong forms,
    no surrogates (ED A0..BF), nothing above U+10FFFF.  On failure the error
    records how many leading bytes were valid. *)

Definition in_range (lo hi c : nat) : bool := (lo <=? c)%nat && (c <=? hi)%nat.

Definition is_cont (b : byte) : bool := in_range 128 191 (Byte.to_nat b).

(** Length of the sequence a leading byte announces (0: invalid lead). *)
Definition utf8_width (n : nat) : nat :=
  if (n <? 128)%nat then 1
  else if in_range 194 223 n then 2
  else if in_range 224 239 n then 3
  else if in_range 240 244 n then 4
  else 0.

(** Allowed range of the byte following lead byte [n]. *)
Definition second_ok (n : nat) (c : byte) : bool :=
  let c := Byte.to_nat c in
  if Nat.eqb n 224 then in_range 160 191 c
  else if Nat.eqb n 237 then in_range 128 159 c
  else if Nat.eqb n 240 then in_range 144 191 c
  else if Nat.eqb n 244 then in_range 128 143 c
  else in_range 128 191 c.

Fixpoint utf8_error_at (l : list byte) (pos : nat) : option nat :=
  match l with
  | [] => None
  | b :: rest =>
      let n := Byte.to_nat b in
      match utf8_width n with
      | 1%nat => utf8_error_at rest (S pos)
      | 2%nat =>
          match rest with
          | c1 :: r => if second_ok n c1 then utf8_error_at r (pos + 2) else Some pos
          | [] => Some pos
          end
      | 3%nat =>
          match rest with
          | c1 :: c2 :: r =>
              if second_ok n c1 && is_cont c2 then utf8_error_at r (pos + 3)
              else Some pos
          | _ => Some pos
          end
      | 4%nat =>
          match rest with
          | c1 :: c2 :: c3 :: r =>
              if second_ok n c1 && is_cont c2 && is_cont c3
              then utf8_error_at r (pos + 4) else Some pos
          | _ => Some pos
          end
      | _ => Some pos
      end
  end.

(** The [&str] returned shares the payload's bytes. *)
Definition from_utf8 (payload : list byte) : result (list byte) Error :=
  match utf8_error_at payload 0 with
  | None => Ok payload
  | Some p => Err (ErrUtf8 p)
  end.

Fixpoint bytes_eqb (a b : list byte) : bool :=
  match a, b with
  | [], [] => true
  | x :: a', y :: b' => Byte.eqb x y && bytes_eqb a' b'
  | _, _ => false
  end.

(** String literals of the source, as the bytes of a [&str]. *)
Definition LOCK_bytes : list byte := list_byte_of_string "LOCK".
Definition UNLOCK_bytes : list byte := list_byte_of_string "UNLOCK".

(** [Duration::new(5, 0)] *)
Definition five_seconds : Duration := mkDuration 5 0.

(** ** serde: deserialising the two [#[derive(Deserialize)]] structs *)

Definition rbind {A B E} (r : result A E) (k : A -> result B E) : result B E :=
  match r with Ok a => k a | Err e => Err e end.

Notation "'let?' x ':=' r 'in' k" := (rbind r (fun x => k))
  (at level 200, x name, r at level 100, k at level 200).

(** First entry of a JSON object with key [k]. *)
Fixpoint json_field (k : string) (entries : list (string * JValue)) : option JValue :=
  match entries with
  | [] => None
  | (k', v) :: rest => if String.eqb k k' then Some v else json_field k rest
  end.

(** A field's value deserialised at the field's Rust type
    ([next_value::<T>()] / [next_element::<T>()]), keeping only success. *)
Definition FieldValue := string -> JValue -> result unit DeError.

(** The derived [visit_map]: walk the entries in order; a known field seen a
    second time is refused before its value is read, a known field's value
    is deserialised at its type as it is read, and an unknown field's value
    is skipped ([IgnoredAny] accepts any JSON value). *)
Fixpoint collect (known : list string) (value : FieldValue)
  (entries acc : list (string * JValue)) : result (list (string * JValue)) DeError :=
  match entries with
  | [] => Ok acc
  | (k, v) :: rest =>
      if existsb (String.eqb k) known then
        match json_field k acc with
        | Some _ => Err (DuplicateField k)
        | None => let? _ := value k v in collect known value rest (app acc [(k, v)])
        end
      else collect known value rest acc
  end.

(** The derived [visit_seq]: the [i]-th element is deserialised at the type
    of the [i]-th field and a missing one is [invalid_length(i)]; then
    serde_json's [end_seq] refuses any element left over. *)
Fixpoint seq_fields (fields : list string) (value : FieldValue) (xs : list JValue)
  (i : nat) : result unit DeError :=
  match fields, xs with
  | [], [] => Ok tt
  | [], _ :: _ => Err TrailingCharacters
  | _ :: _, [] => Err (InvalidLength i)
  | k :: fs, x :: xs' => let? _ := value k x in seq_fields fs value xs' (S i)
  end.

(** The fields of a struct given as a JSON object (by name) or as a JSON
    array (by position). *)
Definition struct_fields (fields : list string) (value : FieldValue) (v : JValue)
  : result (string -> option JValue) DeError :=
  match v with
  | JObj entries =>
      let? acc := collect fields value entries [] in Ok (fun f => json_field f acc)
  | JArr xs =>
      let? _ := seq_fields fields value xs 0 in Ok (fun f => json_field f (combine fields xs))
  | _ => Err NotAStruct
  end.

Definition de_string (f : string) (o : option JValue) : result string DeError :=
  match o with
  | Some (JStr s) => Ok s
  | Some _ => Err (InvalidType f)
  | None => Err (MissingField f)
  end.

Definition de_bool (f : string) (o : option JValue) : result bool DeError :=
  match o with
  | Some (JBool b) => Ok b
  | Some _ => Err (InvalidType f)
  | None => Err (MissingField f)
  end.

(** An unsigned integer of [bits] bits ([u8], [u16], [u32]). *)
Definition de_uint (bits : Z) (f : string) (o : option JValue) : result Z DeError :=
  match o with
  | Some (JNum n) => if (0 <=? n) && (n <? 2 ^ bits) then Ok n else Err (InvalidType f)
  | Some _ => Err (InvalidType f)
  | None => Err (MissingField f)
  end.

(** [Option<T>]: a missing field or [null] is [None]. *)
Definition de_option {A} (de : string -> option JValue -> result A DeError)
  (f : string) (o : option JValue) : result (option A) DeError :=
  match o with
  | None | Some JNull => Ok None
  | Some v => let? a := de f (Some v) in Ok (Some a)
  end.

(** [struct Config] *)
Record Config := mkConfig {
  uhppote_device_id : Z;
  uhppote_device_ip : string;
  name : string;
  door : Z;
  mqtt_id : string;
  mqtt_host : option string;
  mqtt_port : option Z;
  mqtt_username : option string;
  mqtt_password : option string;
  base_topic : string
}.

Definition config_fields : list string :=
  ["uhppote_device_id"; "uhppote_device_ip"; "name"; "door"; "mqtt_id";
   "mqtt_host"; "mqtt_port"; "mqtt_username"; "mqtt_password"; "base_topic"].

Definition drop {A} (r : result A DeError) : result unit DeError :=
  let? _ := r in Ok tt.

(** The type of each field of [Config]. *)
Definition config_value (k : string) (v : JValue) : result unit DeError :=
  if String.eqb k "uhppote_device_id" then drop (de_uint 32 k (Some v))
  else if String.eqb k "uhppote_device_ip" then drop (de_string k (Some v))
  else if String.eqb k "name" then drop (de_string k (Some v))
  else if String.eqb k "door" then drop (de_uint 8 k (Some v))
  else if String.eqb k "mqtt_id" then drop (de_string k (Some v))
  else if String.eqb k "mqtt_host" then drop (de_option de_string k (Some v))
  else if String.eqb k "mqtt_port" then drop (de_option (de_uint 16) k (Some v))
  else if String.eqb k "mqtt_username" then drop (de_option de_string k (Some v))
  else if String.eqb k "mqtt_password" then drop (de_option de_string k (Some v))
  else if String.eqb k "base_topic" then drop (de_string k (Some v))
  else Ok tt.

(** The fields are read (and typed) by [struct_fields]; what is left is
    [missing_field] for an absent field, in declaration order, an absent
    [Option] field being [None]. *)
Definition decode_config (v : JValue) : result Config DeError :=
  let? g := struct_fields config_fields config_value v in
  let? f0 := de_uint 32 "uhppote_device_id" (g "uhppote_device_id") in
  let? f1 := de_string "uhppote_device_ip" (g "uhppote_device_ip") in
  let? f2 := de_string "name" (g "name") in
  let? f3 := de_uint 8 "door" (g "door") in
  let? f4 := de_string "mqtt_id" (g "mqtt_id") in
  let? f5 := de_option de_string "mqtt_host" (g "mqtt_host") in
  let? f6 := de_option (de_uint 16) "mqtt_port" (g "mqtt_port") in
  let? f7 := de_option de_string "mqtt_username" (g "mqtt_username") in
  let? f8 := de_option de_string "mqtt_password" (g "mqtt_password") in
  let? f9 := de_string "base_topic" (g "base_topic") in
  Ok (mkConfig f0 f1 f2 f3 f4 f5 f6 f7 f8 f9).

(** [struct MqttConfig], the supervisor's reply *)
Record MqttConfig := mkMqttConfig {
  addon : string;
  host : string;
  port : string;
  ssl : bool;
  username : string;
  password : string;
  protocol : string
}.

Definition mqtt_config_fields : list string :=
  ["addon"; "host"; "port"; "ssl"; "username"; "password"; "protocol"].

(** The type of each field of [MqttConfig]. *)
Definition mqtt_config_value (k : string) (v : JValue) : result unit DeError :=
  if String.eqb k "addon" then drop (de_string k (Some v))
  else if String.eqb k "host" then drop (de_string k (Some v))
  else if String.eqb k "port" then drop (de_string k (Some v))
  else if String.eqb k "ssl" then drop (de_bool k (Some v))
  else if String.eqb k "username" then drop (de_string k (Some v))
  else if String.eqb k "password" then drop (de_string k (Some v))
  else if String.eqb k "protocol" then drop (de_string k (Some v))
  else Ok tt.

Definition decode_mqtt_config (v : JValue) : result MqttConfig DeError :=
  let? g := struct_fields mqtt_config_fields mqtt_config_value v in
  let? f0 := de_string "addon" (g "addon") in
  let? f1 := de_string "host" (g "host") in
  let? f2 := de_string "port" (g "port") in
  let? f3 := de_bool "ssl" (g "ssl") in
  let? f4 := de_string "username" (g "username") in
  let? f5 := de_string "password" (g "password") in
  let? f6 := de_string "protocol" (g "protocol") in
  Ok (mkMqttConfig f0 f1 f2 f3 f4 f5 f6).

(** ** [str::parse::<u16>]: an optional ['+'], then at least one ASCII
    digit, no overflow past 65535. *)

Definition digit_value (c : ascii) : option Z :=
  let n := nat_of_ascii c in
  if in_range 48 57 n then Some (Z.of_nat n - 48) else None.

Fixpoint digits_u16 (s : string) (acc : Z) : option Z :=
  match s with
  | EmptyString => Some acc
  | String c rest =>
      match digit_value c with
      | Some d =>
          let acc' := acc * 10 + d in
          if acc' <=? 65535 then digits_u16 rest acc' else None
      | None => None
      end
  end.

Definition parse_u16 (s : string) : option Z :=
  match s with
  | EmptyString => None
  | String c rest =>
      if Ascii.eqb c "+"%char then
        match rest with EmptyString => None | _ => digits_u16 rest 0 end
      else digits_u16 s 0
  end.

(** ** Topics and the discovery payload *)

Definition config_topic_of (base : string) : string := base ++ "/config".
Definition state_topic_of (base : string) : string := base ++ "/state".
Definition command_topic_of (base : string) : string := base ++ "/command".

(** A double quote. *)
Definition quote : ascii := Ascii false true false false false true false false.
Definition dq : string := String quote EmptyString.

(** [format!(r#"{{"command_topic": "{}", "state_topic": "{}", "name": "{}" }}"#, ...)] *)
Definition discovery_payload (command_topic state_topic nm : string) : string :=
  "{" ++ dq ++ "command_topic" ++ dq ++ ": " ++ dq ++ command_topic ++ dq ++ ", "
  ++ dq ++ "state_topic" ++ dq ++ ": " ++ dq ++ state_topic ++ dq ++ ", "
  ++ dq ++ "name" ++ dq ++ ": " ++ dq ++ nm ++ dq ++ " }".

(** rumqttc's client-id test: [!(id.starts_with(' ') || id.is_empty())]. *)
Definition client_id_ok (id : string) : bool :=
  match id with
  | EmptyString => false
  | String c _ => negb (Ascii.eqb c " "%char)
  end.

(** Broker parameters handed to [MqttOptions::new] and [set_credentials]. *)
Record Creds := mkCreds {
  cred_host : string;
  cred_port : Z;
  cred_username : string;
  cred_password : string
}.

Section Program.

Variable w : World.

(** [device.set_door_control_state(door, ctl)] *)
Definition set_door_control_state (dev : Device) (door : Z) (ctl : DoorControl)
  : M (result unit string) :=
  fun t => (app t [ActDevice dev door ctl],
            Done (w_device w (count_device t) dev door ctl)).

(** [client.publish(topic, qos, retain, payload).await] *)
Definition publish (topic : string) (qos : QoS) (retain : bool) (payload : string)
  : M (result unit unit) :=
  fun t => (app t [ActPublish topic qos retain payload],
            Done (if w_publish_ok w (count_publishes t) then Ok tt else Err tt)).

(** [client.subscribe(topic, qos).await] *)
Definition subscribe (topic : string) (qos : QoS) : M (result unit unit) :=
  fun t => (app t [ActSubscribe topic qos],
            Done (if w_subscribe_ok w then Ok tt else Err tt)).

(** [.unwrap()] on a client result *)
Definition unwrap_client (r : result unit unit) : M unit :=
  match r with
  | Ok _ => ret tt
  | Err _ => panic "called `Result::unwrap()` on an `Err` value"
  end.

(** [fn handle_payload(device: &Device, door: u8, payload: &[u8])
       -> Result<Option<&'static str>>] *)
Definition handle_payload (device : Device) (door : Z) (payload : list byte)
  : M (result (option string) Error) :=
  match from_utf8 payload with
  | Err e => ret (Err e)
  | Ok s =>
      if bytes_eqb s LOCK_bytes then
        r <- set_door_control_state device door (mkDoorControl five_seconds Controlled) ;;
        match r with
        | Ok _ => ret (Ok (Some "LOCKED"))
        | Err c => ret (Err (ErrDevice c))
        end
      else if bytes_eqb s UNLOCK_bytes then
        r <- set_door_control_state device door (mkDoorControl five_seconds NormallyOpen) ;;
        match r with
        | Ok _ => ret (Ok (Some "UNLOCKED"))
        | Err c => ret (Err (ErrDevice c))
        end
      else ret (Ok None)
  end.

(** The receive loop's body, for one polled event. *)
Definition loop_step (device : Device) (door : Z) (state_topic : string) (ev : Event)
  : M unit :=
  match ev with
  | EvIncomingPublish _ payload =>
      r <- handle_payload device door payload ;;
      match r with
      | Ok (Some state) =>
          p <- publish state_topic AtLeastOnce false state ;;
          unwrap_client p
      | Ok None => ret tt
      | Err e => emit (ActLogError e)
      end
  | EvError msg => emit (ActPrint msg)
  | _ => ret tt
  end.

(** [loop { let event = eventloop.poll().await; ... }] over the events polled. *)
Fixpoint receive_loop (device : Device) (door : Z) (state_topic : string)
  (events : list Event) : M unit :=
  match events with
  | [] => ret tt
  | ev :: rest =>
      _ <- loop_step device door state_topic ev ;;
      receive_loop device door state_topic rest
  end.

Definition unwrap_var (v : VarResult) : M string :=
  match v with
  | Present s => ret s
  | _ => panic "called `Result::unwrap()` on an `Err` value"
  end.

(** [if std::env::var("HASS_TOKEN").is_ok() { ... }]: fetch the broker
    parameters from the supervisor and store them in [config]. *)
Definition hass_config (config : Config) : M Config :=
  if env_is_ok (w_env w "HASS_TOKEN") then
    token <- unwrap_var (w_env w "SUPERVISOR_TOKEN") ;;
    _ <- emit (ActHttpGet "http://supervisor/services/mqtt" ("Bearer " ++ token)) ;;
    response <- match w_http w with Some r => ret r | None => exit ErrHttp end ;;
    if Z.eqb (status response) 200 then
      j <- match body response with
           | Some b => match decode_mqtt_config b with
                       | Ok j => ret j
                       | Err e => exit (ErrJson e)
                       end
           | None => exit ErrHttp
           end ;;
      p <- match parse_u16 (port j) with Some p => ret p | None => exit ErrParseInt end ;;
      ret {| uhppote_device_id := uhppote_device_id config;
             uhppote_device_ip := uhppote_device_ip config;
             name := name config;
             door := door config;
             mqtt_id := mqtt_id config;
             mqtt_host := Some (host j);
             mqtt_port := Some p;
             mqtt_username := Some (username j);
             mqtt_password := Some (password j);
             base_topic := base_topic config |}
    else exit (ErrHassStatus (status response))
  else ret config.

(** The body of rumqttc's [MqttOptions::new]: it panics on a client id
    that is empty or starts with a space. *)
Definition mqtt_options_new (id : string) : M unit :=
  if client_id_ok id then ret tt else panic "Invalid client id".

(** Credential resolution: the supervisor step, then the two [expect]s that
    are arguments of [MqttOptions::new], its client-id check, and the two
    [expect]s that are arguments of [set_credentials]. *)
Definition resolve (config : Config) : M Creds :=
  c <- hass_config config ;;
  h <- expect (mqtt_host c) "No MQTT host found" ;;
  p <- expect (mqtt_port c) "No MQTT port found" ;;
  _ <- mqtt_options_new (mqtt_id c) ;;
  u <- expect (mqtt_username c) "No MQTT username found" ;;
  pw <- expect (mqtt_password c) "No MQTT password found" ;;
  ret (mkCreds h p u pw).

(** Subscribe to the command topic, then publish the discovery payload. *)
Definition announce (config_topic state_topic command_topic nm : string) : M unit :=
  r <- subscribe command_topic AtMostOnce ;;
  _ <- unwrap_client r ;;
  r' <- publish config_topic AtLeastOnce true (discovery_payload command_topic state_topic nm) ;;
  unwrap_client r'.

(** [async fn main() -> Result<()>], after argument parsing and logger set-up. *)
Definition main : M unit :=
  json <- match w_config_file w with Some j => ret j | None => exit ErrIo end ;;
  config <- match decode_config json with Ok c => ret c | Err e => exit (ErrJson e) end ;;
  let config_topic := config_topic_of (base_topic config) in
  let state_topic := state_topic_of (base_topic config) in
  let command_topic := command_topic_of (base_topic config) in
  ip <- match w_parse_ip w (uhppote_device_ip config) with
        | Some ip => ret ip
        | None => exit ErrAddrParse
        end ;;
  let device := mkDevice (uhppote_device_id config) (Some ip) in
  _ <- resolve config ;;
  _ <- announce config_topic state_topic command_topic (name config) ;;
  receive_loop device (door config) state_topic (w_events w).

End Program.

(** ** Basic facts *)

Lemma count_device_app (a b : list Action) :
  count_device (app a b) = (count_device a + count_device b)%nat.
Proof. induction a as [|x a IH]; [reflexivity|]. destruct x; simpl; rewrite ?IH; reflexivity. Qed.

Lemma count_publishes_app (a b : list Action) :
  count_publishes (app a b) = (count_publishes a + count_publishes b)%nat.
Proof. induction a as [|x a IH]; [reflexivity|]. destruct x; simpl; rewrite ?IH; reflexivity. Qed.

Lemma bytes_eqb_true (a b : list byte) : bytes_eqb a b = true -> a = b.
Proof.
  revert b; induction a as [|x a IH]; intros [|y b]; simpl; try discriminate; auto.
  intros H; apply andb_prop in H as [Hx Hab].
  apply Byte.byte_dec_bl in Hx; subst; f_equal; auto.
Qed.

Definition lock_ctl : DoorControl := mkDoorControl five_seconds Controlled.
Definition unlock_ctl : DoorControl := mkDoorControl five_seconds NormallyOpen.

(** ** C1: the two commands *)

(** C1. On the payload "LOCK", [handle_payload] makes exactly one device call,
    [set_door_control_state(door, {delay: 5s, mode: Controlled})], and
    returns [Ok(Some "LOCKED")] if that call succeeds and an error carrying
    the device's cause otherwise; "UNLOCK" is the same with mode
    [NormallyOpen] and label "UNLOCKED". *)
Theorem handle_payload_commands :
  forall (w : World) (dev : Device) (door : Z) (t : list Action),
    handle_payload w dev door LOCK_bytes t =
      (app t [ActDevice dev door (mkDoorControl (mkDuration 5 0) Controlled)],
       Done (match w_device w (count_device t) dev door
                     (mkDoorControl (mkDuration 5 0) Controlled) with
             | Ok _ => Ok (Some "LOCKED")
             | Err cause => Err (ErrDevice cause)
             end))
    /\ handle_payload w dev door UNLOCK_bytes t =
      (app t [ActDevice dev door (mkDoorControl (mkDuration 5 0) NormallyOpen)],
       Done (match w_device w (count_device t) dev door
                     (mkDoorControl (mkDuration 5 0) NormallyOpen) with
             | Ok _ => Ok (Some "UNLOCKED")
             | Err cause => Err (ErrDevice cause)
             end)).
Proof.
  intros w dev door t; split;
    unfold handle_payload, bind, set_door_control_state; cbn;
    destruct (w_device _ _ _ _ _); reflexivity.
Qed.

(** ** C2: every other payload *)

(** C2. For a payload other than the bytes of "LOCK" and "UNLOCK",
    [handle_payload] leaves the trace unchanged (no device call) and
    returns [Ok(None)] when the payload is valid UTF-8 and the decode error
    otherwise. *)
Theorem handle_payload_other :
  forall (w : World) (dev : Device) (door : Z) (p : list byte) (t : list Action),
    p <> LOCK_bytes -> p <> UNLOCK_bytes ->
    handle_payload w dev door p t =
      (t, Done (match utf8_error_at p 0 with
                | None => Ok None
                | Some n => Err (ErrUtf8 n)
                end)).
Proof.
  intros w dev door p t Hl Hu.
  unfold handle_payload, from_utf8.
  destruct (utf8_error_at p 0); [reflexivity|].
  destruct (bytes_eqb p LOCK_bytes) eqn:E1;
    [apply bytes_eqb_true in E1; contradiction|].
  destruct (bytes_eqb p UNLOCK_bytes) eqn:E2;
    [apply bytes_eqb_true in E2; contradiction|].
  reflexivity.
Qed.

Definition sample_device : Device := mkDevice 423187757 (Some [192; 168; 1; 100]).

Lemma handle_payload_other_witness :
  list_byte_of_string "lock" <> LOCK_bytes /\
  list_byte_of_string "lock" <> UNLOCK_bytes /\
  handle_payload (mkWorld None (fun _ => None) (fun _ => NotPresent) None true
                    (fun _ => true) (fun _ _ _ _ => Ok tt) [])
    sample_device 1 (list_byte_of_string "lock") [] = ([], Done (Ok None)).
Proof.
  split; [vm_compute; discriminate|].
  split; [vm_compute; discriminate|].
  apply (handle_payload_other _ sample_device 1 (list_byte_of_string "lock") []);
    vm_compute; discriminate.
Defined.

(** ** C3: each "LOCK" publishes "LOCKED" once *)

Definition unwrap_msg : string := "called `Result::unwrap()` on an `Err` value".

Lemma loop_step_lock (w : World) (dev : Device) (door : Z) (st topic : string)
  (t : list Action) :
  w_device w (count_device t) dev door lock_ctl = Ok tt ->
  loop_step w dev door st (EvIncomingPublish topic LOCK_bytes) t =
    (app t [ActDevice dev door lock_ctl; ActPublish st AtLeastOnce false "LOCKED"],
     if w_publish_ok w (count_publishes t) then Done tt else Panic unwrap_msg).
Proof.
  intros Hd.
  unfold loop_step, handle_payload, bind, set_door_control_state, publish,
    unwrap_client, ret; cbn.
  fold lock_ctl. rewrite Hd; cbn.
  rewrite count_publishes_app; simpl; rewrite Nat.add_0_r, <- app_assoc.
  destruct (w_publish_ok w (count_publishes t)); reflexivity.
Qed.

(** C3. One "LOCK" whose device call succeeds appends exactly the device call
    and one publish of "LOCKED" to the state topic (QoS at least once, not
    retained), whatever the topic and history; and [k] such messages in a
    row, with their device calls and publishes succeeding, give [k] device
    calls and [k] such publishes: nothing is deduplicated. *)
Theorem lock_publishes_locked_each_time :
  forall (w : World) (dev : Device) (door : Z) (st topic : string)
         (k : nat) (t : list Action),
    (forall i, (count_device t <= i < count_device t + k)%nat ->
               w_device w i dev door lock_ctl = Ok tt) ->
    (forall i, (count_publishes t <= i < count_publishes t + k)%nat ->
               w_publish_ok w i = true) ->
    (w_device w (count_device t) dev door lock_ctl = Ok tt ->
     fst (loop_step w dev door st (EvIncomingPublish topic LOCK_bytes) t) =
       app t [ActDevice dev door lock_ctl; ActPublish st AtLeastOnce false "LOCKED"])
    /\ receive_loop w dev door st (repeat (EvIncomingPublish topic LOCK_bytes) k) t =
       (app t (List.concat (List.repeat [ActDevice dev door lock_ctl;
                               ActPublish st AtLeastOnce false "LOCKED"] k)),
        Done tt).
Proof.
  intros w dev door st topic k t Hdev Hpub; split.
  - intros Hd; rewrite (loop_step_lock _ _ _ _ _ _ Hd); reflexivity.
  - revert t Hdev Hpub; induction k as [|k IH]; intros t Hdev Hpub.
    + simpl; rewrite app_nil_r; reflexivity.
    + cbn [receive_loop List.repeat]; unfold bind at 1.
      rewrite loop_step_lock by (apply Hdev; lia).
      rewrite Hpub by lia.
      rewrite IH.
      * simpl; rewrite <- app_assoc; reflexivity.
      * intros i Hi; apply Hdev.
        rewrite count_device_app in Hi; simpl in Hi; lia.
      * intros i Hi; apply Hpub.
        rewrite count_publishes_app in Hi; simpl in Hi; lia.
Qed.

Definition all_ok_world (evs : list Event) : World :=
  mkWorld None (fun _ => None) (fun _ => NotPresent) None true
    (fun _ => true) (fun _ _ _ _ => Ok tt) evs.

Lemma lock_publishes_locked_each_time_witness :
  (forall i, (0 <= i < 0 + 2)%nat ->
     w_device (all_ok_world []) i sample_device 1 lock_ctl = Ok tt) /\
  (forall i, (0 <= i < 0 + 2)%nat -> w_publish_ok (all_ok_world []) i = true) /\
  receive_loop (all_ok_world []) sample_device 1 "uhppote/state"
    (repeat (EvIncomingPublish "uhppote/command" LOCK_bytes) 2) [] =
  ([ActDevice sample_device 1 lock_ctl; ActPublish "uhppote/state" AtLeastOnce false "LOCKED";
    ActDevice sample_device 1 lock_ctl; ActPublish "uhppote/state" AtLeastOnce false "LOCKED"],
   Done tt).
Proof.
  split; [intros; reflexivity|].
  split; [intros; reflexivity|].
  refine (proj2 (lock_publishes_locked_each_time (all_ok_world []) sample_device 1
                   "uhppote/state" "uhppote/command" 2 [] _ _)); intros; reflexivity.
Defined.

(** ** C4: the receive loop does not look at the topic *)

(** C4 (as the code does it). An incoming publish is handled the same way
    whatever its topic: its payload goes to [handle_payload] with the
    configured door, and the topic is never compared with the command
    topic. *)
Theorem loop_step_topic_irrelevant :
  forall (w : World) (dev : Device) (door : Z) (st topic topic' : string)
         (p : list byte) (t : list Action),
    loop_step w dev door st (EvIncomingPublish topic p) t =
      loop_step w dev door st (EvIncomingPublish topic' p) t
    /\ exists rest,
         fst (loop_step w dev door st (EvIncomingPublish topic p) t) =
           app (fst (handle_payload w dev door p t)) rest.
Proof.
  intros w dev d st topic topic' p t; split; [reflexivity|].
  unfold loop_step, bind.
  destruct (handle_payload w dev d p t) as [t' [r|e|m]] eqn:E.
  - destruct r as [[s|]|e].
    + unfold publish, unwrap_client. simpl.
      exists [ActPublish st AtLeastOnce false s].
      destruct (w_publish_ok w (count_publishes t')); reflexivity.
    + exists []; rewrite app_nil_r; reflexivity.
    + exists [ActLogError e]; reflexivity.
  - exists []; rewrite app_nil_r; reflexivity.
  - exists []; rewrite app_nil_r; reflexivity.
Qed.

(** ** What a computation appends to the trace *)

(** [m] only appends actions satisfying [P]. *)
Definition emits {A} (P : Action -> Prop) (m : M A) : Prop :=
  forall t, exists d, fst (m t) = app t d /\ Forall P d.

Lemma emits_ret {A} (P : Action -> Prop) (a : A) : emits P (ret a).
Proof. intros t; exists []; rewrite app_nil_r; auto. Qed.

Lemma emits_exit {A} (P : Action -> Prop) e : emits P (@exit A e).
Proof. intros t; exists []; rewrite app_nil_r; auto. Qed.

Lemma emits_panic {A} (P : Action -> Prop) s : emits P (@panic A s).
Proof. intros t; exists []; rewrite app_nil_r; auto. Qed.

Lemma emits_emit (P : Action -> Prop) a : P a -> emits P (emit a).
Proof. intros Ha t; exists [a]; auto. Qed.

Lemma emits_bind {A B} (P : Action -> Prop) (m : M A) (k : A -> M B) :
  emits P m -> (forall a, emits P (k a)) -> emits P (bind m k).
Proof.
  intros Hm Hk t; unfold bind.
  destruct (Hm t) as [d [Ed Fd]].
  destruct (m t) as [t' s]; simpl in Ed; subst t'.
  destruct s as [a|e|s].
  - destruct (Hk a (app t d)) as [d' [Ed' Fd']].
    exists (app d d'); rewrite Ed', app_assoc; split; [reflexivity|].
    apply Forall_app; auto.
  - exists d; auto.
  - exists d; auto.
Qed.

Lemma emits_expect {A} (P : Action -> Prop) (o : option A) s : emits P (expect o s).
Proof. destruct o; [apply emits_ret | apply emits_panic]. Qed.

Lemma emits_unwrap_client (P : Action -> Prop) r : emits P (unwrap_client r).
Proof. destruct r; [apply emits_ret | apply emits_panic]. Qed.

Lemma emits_unwrap_var (P : Action -> Prop) v : emits P (unwrap_var v).
Proof. destruct v; [apply emits_ret | apply emits_panic | apply emits_panic]. Qed.

Lemma emits_publish (P : Action -> Prop) w tp q r s :
  P (ActPublish tp q r s) -> emits P (publish w tp q r s).
Proof. intros H t; exists [ActPublish tp q r s]; auto. Qed.

Lemma emits_subscribe (P : Action -> Prop) w tp q :
  P (ActSubscribe tp q) -> emits P (subscribe w tp q).
Proof. intros H t; exists [ActSubscribe tp q]; auto. Qed.

Lemma emits_device (P : Action -> Prop) w dev d ctl :
  P (ActDevice dev d ctl) -> emits P (set_door_control_state w dev d ctl).
Proof. intros H t; exists [ActDevice dev d ctl]; auto. Qed.

Lemma emits_mqtt_options_new (P : Action -> Prop) id :
  emits P (mqtt_options_new id).
Proof.
  unfold mqtt_options_new; destruct (client_id_ok id); [apply emits_ret | apply emits_panic].
Qed.

Create HintDb emits.
#[local] Hint Resolve emits_ret emits_exit emits_panic emits_expect
  emits_unwrap_client emits_unwrap_var emits_mqtt_options_new : emits.

Ltac emits_step :=
  match goal with
  | |- emits _ (bind _ _) => apply emits_bind; [|intro]
  | |- emits _ (emit _) => apply emits_emit
  | |- emits _ (publish _ _ _ _ _) => apply emits_publish
  | |- emits _ (subscribe _ _ _) => apply emits_subscribe
  | |- emits _ (set_door_control_state _ _ _ _) => apply emits_device
  | |- emits _ (if ?b then _ else _) => destruct b
  | |- emits _ (match ?x with _ => _ end) => destruct x
  | |- emits _ _ => solve [auto with emits]
  end.

Ltac emits_tac := repeat (emits_step; simpl; auto).

Lemma emits_handle_payload (P : Action -> Prop) w dev d p :
  (forall ctl, P (ActDevice dev d ctl)) -> emits P (handle_payload w dev d p).
Proof. intros H; unfold handle_payload; emits_tac. Qed.

Lemma emits_loop_step (P : Action -> Prop) w dev d st ev :
  (forall ctl, P (ActDevice dev d ctl)) ->
  (forall s, P (ActPublish st AtLeastOnce false s)) ->
  (forall e, P (ActLogError e)) -> (forall s, P (ActPrint s)) ->
  emits P (loop_step w dev d st ev).
Proof.
  intros Hd Hp Hl Hpr; unfold loop_step; destruct ev; emits_tac.
  apply emits_handle_payload; auto.
Qed.

Lemma emits_receive_loop (P : Action -> Prop) w dev d st evs :
  (forall ctl, P (ActDevice dev d ctl)) ->
  (forall s, P (ActPublish st AtLeastOnce false s)) ->
  (forall e, P (ActLogError e)) -> (forall s, P (ActPrint s)) ->
  emits P (receive_loop w dev d st evs).
Proof.
  intros Hd Hp Hl Hpr; induction evs as [|ev evs IH]; simpl; emits_tac.
  apply emits_loop_step; auto.
Qed.

Lemma emits_resolve (P : Action -> Prop) w cfg :
  (forall u h, P (ActHttpGet u h)) -> emits P (resolve w cfg).
Proof. intros H; unfold resolve, hass_config; emits_tac. Qed.

Lemma emits_announce (P : Action -> Prop) w ct st cmd nm :
  P (ActSubscribe cmd AtMostOnce) ->
  P (ActPublish ct AtLeastOnce true (discovery_payload cmd st nm)) ->
  emits P (announce w ct st cmd nm).
Proof. intros H1 H2; unfold announce; emits_tac. Qed.

(** ** Sample inputs *)

(** A config file with static broker parameters. *)
Definition config_json (nm base : string) : JValue :=
  JObj [("uhppote_device_id", JNum 423187757);
        ("uhppote_device_ip", JStr "192.168.1.100");
        ("name", JStr nm);
        ("door", JNum 1);
        ("mqtt_id", JStr "uhppote-mqtt");
        ("mqtt_host", JStr "broker.local");
        ("mqtt_port", JNum 1883);
        ("mqtt_username", JStr "mqtt");
        ("mqtt_password", JStr "secret");
        ("base_topic", JStr base)].

Definition sample_parse_ip (s : string) : option IpAddr :=
  if String.eqb s "192.168.1.100" then Some [192; 168; 1; 100] else None.

(** A world where the broker and the device accept every request. *)
Definition sample_world (cfg : option JValue) (env : string -> VarResult)
  (http : option HttpResponse) (evs : list Event) : World :=
  mkWorld cfg sample_parse_ip env http true (fun _ => true) (fun _ _ _ _ => Ok tt) evs.

Definition no_env (_ : string) : VarResult := NotPresent.

Definition sample_discovery : string :=
  discovery_payload "uhppote/command" "uhppote/state" "Front door".

(** C4 (the claim as written fails). With base topic "uhppote", a "LOCK"
    published on "garage/command", which is not the command topic, still
    reaches [handle_payload]: the door is locked and "LOCKED" published. *)
Lemma other_topic_is_dispatched :
  "garage/command" <> command_topic_of "uhppote" /\
  main (sample_world (Some (config_json "Front door" "uhppote")) no_env None
          [EvIncomingPublish "garage/command" LOCK_bytes]) [] =
    ([ActSubscribe "uhppote/command" AtMostOnce;
      ActPublish "uhppote/config" AtLeastOnce true sample_discovery;
      ActDevice sample_device 1 lock_ctl;
      ActPublish "uhppote/state" AtLeastOnce false "LOCKED"], Done tt).
Proof. split; [vm_compute; discriminate | vm_compute; reflexivity]. Qed.

(** ** A recogniser for flat JSON objects with string values

    A sub-grammar of RFC 8259: an object whose members have string values;
    strings may use the backslash escapes of a quote, a backslash, a slash,
    b, f, n, r and t, and no control character.  Whatever it accepts is JSON, decoded to its members in
    order. *)

Definition code (c : ascii) : nat := nat_of_ascii c.

Definition is_ws (c : ascii) : bool :=
  Nat.eqb (code c) 32 || Nat.eqb (code c) 9 || Nat.eqb (code c) 10 || Nat.eqb (code c) 13.

Fixpoint skip_ws (s : string) : string :=
  match s with
  | String c r => if is_ws c then skip_ws r else s
  | EmptyString => EmptyString
  end.

Definition unescape (c : ascii) : option ascii :=
  let n := code c in
  if Nat.eqb n 34 || Nat.eqb n 92 || Nat.eqb n 47 then Some c
  else if Nat.eqb n 98 then Some (ascii_of_nat 8)
  else if Nat.eqb n 102 then Some (ascii_of_nat 12)
  else if Nat.eqb n 110 then Some (ascii_of_nat 10)
  else if Nat.eqb n 114 then Some (ascii_of_nat 13)
  else if Nat.eqb n 116 then Some (ascii_of_nat 9)
  else None.

(** The rest of a string literal after its opening quote: its value and
    what follows the closing quote. *)
Fixpoint parse_jstring (s : string) : option (string * string) :=
  match s with
  | EmptyString => None
  | String c r =>
      if Nat.eqb (code c) 34 then Some (EmptyString, r)
      else if Nat.eqb (code c) 92 then
        match r with
        | String e r' =>
            match unescape e, parse_jstring r' with
            | Some c', Some (v, rest) => Some (String c' v, rest)
            | _, _ => None
            end
        | EmptyString => None
        end
      else if (code c <? 32)%nat then None
      else match parse_jstring r with
           | Some (v, rest) => Some (String c v, rest)
           | None => None
           end
  end.

(** Members, from the opening quote of a key to the closing brace. *)
Fixpoint parse_members (fuel : nat) (s : string)
  : option (list (string * string) * string) :=
  match fuel with
  | O => None
  | S fuel' =>
      match s with
      | String q r =>
          if Nat.eqb (code q) 34 then
            match parse_jstring r with
            | Some (k, r1) =>
                match skip_ws r1 with
                | String colon r2 =>
                    if Nat.eqb (code colon) 58 then
                      match skip_ws r2 with
                      | String q' r3 =>
                          if Nat.eqb (code q') 34 then
                            match parse_jstring r3 with
                            | Some (v, r4) =>
                                match skip_ws r4 with
                                | String sep r5 =>
                                    if Nat.eqb (code sep) 44 then
                                      match parse_members fuel' (skip_ws r5) with
                                      | Some (ms, rest) => Some ((k, v) :: ms, rest)
                                      | None => None
                                      end
                                    else if Nat.eqb (code sep) 125 then Some ([(k, v)], r5)
                                    else None
                                | EmptyString => None
                                end
                            | None => None
                            end
                          else None
                      | EmptyString => None
                      end
                    else None
                | EmptyString => None
                end
            | None => None
            end
          else None
      | EmptyString => None
      end
  end.

Definition parse_flat_object (s : string) : option (list (string * string)) :=
  match skip_ws s with
  | String lb r =>
      if Nat.eqb (code lb) 123 then
        match skip_ws r with
        | String rb r' =>
            if Nat.eqb (code rb) 125 then
              (if String.eqb (skip_ws r') EmptyString then Some [] else None)
            else
              match parse_members (String.length s) (skip_ws r) with
              | Some (ms, rest) =>
                  if String.eqb (skip_ws rest) EmptyString then Some ms else None
              | None => None
              end
        | EmptyString => None
        end
      else None
  | EmptyString => None
  end.

(** Text that can sit between two quotes of a JSON string as it is. *)
Fixpoint json_plain (s : string) : bool :=
  match s with
  | EmptyString => true
  | String c r =>
      negb (Nat.eqb (code c) 34) && negb (Nat.eqb (code c) 92)
      && (32 <=? code c)%nat && json_plain r
  end.

Example parse_flat_object_sample :
  parse_flat_object sample_discovery =
    Some [("command_topic", "uhppote/command"); ("state_topic", "uhppote/state");
          ("name", "Front door")].
Proof. vm_compute; reflexivity. Qed.

Lemma json_plain_cons (c : ascii) (x : string) :
  json_plain (String c x) =
    negb (Nat.eqb (code c) 34) && negb (Nat.eqb (code c) 92)
    && (32 <=? code c)%nat && json_plain x.
Proof. reflexivity. Qed.

Lemma parse_jstring_plain (x r : string) :
  json_plain x = true -> parse_jstring (x ++ String quote r) = Some (x, r).
Proof.
  induction x as [|c x IH]; [reflexivity|].
  rewrite json_plain_cons; intros H.
  apply andb_prop in H as [H Hx]; apply andb_prop in H as [H Hlo];
    apply andb_prop in H as [Hq Hb].
  apply negb_true_iff in Hq, Hb.
  simpl; fold (code c); rewrite Hq, Hb.
  apply Nat.leb_le in Hlo.
  replace (code c <? 32)%nat with false by (symmetry; apply Nat.ltb_ge; lia).
  rewrite IH by exact Hx; reflexivity.
Qed.

Lemma json_plain_app (x y : string) :
  json_plain (x ++ y) = json_plain x && json_plain y.
Proof.
  induction x as [|c x IH]; [reflexivity|].
  simpl; rewrite IH; rewrite !andb_assoc; reflexivity.
Qed.

Lemma discovery_payload_parses (ct st nm : string) :
  json_plain ct = true -> json_plain st = true -> json_plain nm = true ->
  parse_flat_object (discovery_payload ct st nm) =
    Some [("command_topic", ct); ("state_topic", st); ("name", nm)].
Proof.
  intros Hc Hs Hn.
  unfold parse_flat_object, discovery_payload; simpl.
  rewrite parse_jstring_plain by exact Hc; simpl.
  rewrite parse_jstring_plain by exact Hs; simpl.
  rewrite parse_jstring_plain by exact Hn; simpl.
  reflexivity.
Qed.

(** ** Unfolding [main] *)

Lemma bind_done {A B} (m : M A) (k : A -> M B) t t' a :
  m t = (t', Done a) -> bind m k t = k a t'.
Proof. intros H; unfold bind; rewrite H; reflexivity. Qed.

Lemma main_after_resolve (w : World) (j : JValue) (cfg : Config) (ip : IpAddr)
  (tr : list Action) (creds : Creds) :
  w_config_file w = Some j -> decode_config j = Ok cfg ->
  w_parse_ip w (uhppote_device_ip cfg) = Some ip ->
  resolve w cfg [] = (tr, Done creds) ->
  main w [] =
    (_ <- announce w (config_topic_of (base_topic cfg)) (state_topic_of (base_topic cfg))
                     (command_topic_of (base_topic cfg)) (name cfg) ;;
     receive_loop w (mkDevice (uhppote_device_id cfg) (Some ip)) (door cfg)
       (state_topic_of (base_topic cfg)) (w_events w)) tr.
Proof.
  intros Hf Hd Hip Hr.
  unfold main.
  rewrite (bind_done _ _ [] [] j) by (rewrite Hf; reflexivity); cbv beta zeta.
  rewrite (bind_done _ _ [] [] cfg) by (rewrite Hd; reflexivity); cbv beta zeta.
  rewrite (bind_done _ _ [] [] ip) by (rewrite Hip; reflexivity); cbv beta zeta.
  rewrite (bind_done _ _ [] tr creds) by exact Hr; reflexivity.
Qed.

Lemma announce_spec (w : World) (ct st cmd nm : string) (t : list Action) :
  announce w ct st cmd nm t =
    if w_subscribe_ok w then
      (app t [ActSubscribe cmd AtMostOnce;
              ActPublish ct AtLeastOnce true (discovery_payload cmd st nm)],
       if w_publish_ok w (count_publishes t) then Done tt else Panic unwrap_msg)
    else (app t [ActSubscribe cmd AtMostOnce], Panic unwrap_msg).
Proof.
  unfold announce, bind, subscribe, publish, unwrap_client, ret, panic.
  destruct (w_subscribe_ok w); [|reflexivity].
  rewrite count_publishes_app, Nat.add_0_r, <- app_assoc; simpl.
  destruct (w_publish_ok w (count_publishes t)); reflexivity.
Qed.

(** ** Subscription, then the retained discovery message *)

Definition is_http_get (a : Action) : Prop :=
  match a with ActHttpGet _ _ => True | _ => False end.

Definition subscription_of (cfg : Config) : Action :=
  ActSubscribe (command_topic_of (base_topic cfg)) AtMostOnce.

Definition discovery_of (cfg : Config) : Action :=
  ActPublish (config_topic_of (base_topic cfg)) AtLeastOnce true
    (discovery_payload (command_topic_of (base_topic cfg))
       (state_topic_of (base_topic cfg)) (name cfg)).

(** A name that closes the JSON string it is pasted into. *)
Definition injected_name : string :=
  "x" ++ dq ++ ", " ++ dq ++ "name" ++ dq ++ ": " ++ dq ++ "y".

(** C5 (the code misses what it attempts). The [format!] template of the
    discovery payload is a JSON object with the members command_topic,
    state_topic and name, but the values are inserted without escaping:
    with the display name [injected_name] the retained message that [main]
    publishes on "uhppote/config" is a JSON object whose name members are
    "x" and "y"; none of them is the configured name. *)
Lemma discovery_payload_not_escaped :
  In (ActPublish "uhppote/config" AtLeastOnce true
        (discovery_payload "uhppote/command" "uhppote/state" injected_name))
     (fst (main (sample_world (Some (config_json injected_name "uhppote")) no_env None [])
             []))
  /\ parse_flat_object
       (discovery_payload "uhppote/command" "uhppote/state" injected_name) =
     Some [("command_topic", "uhppote/command"); ("state_topic", "uhppote/state");
           ("name", "x"); ("name", "y")]
  /\ ~ In ("name", injected_name)
         [("command_topic", "uhppote/command"); ("state_topic", "uhppote/state");
          ("name", "x"); ("name", "y")].
Proof.
  split; [vm_compute; right; left; reflexivity|].
  split; [vm_compute; reflexivity|].
  simpl; intros [H|[H|[H|[H|H]]]]; try discriminate; exact H.
Qed.

(** X9. Once the config is decoded, the device address parsed and the
    broker parameters resolved (which at most sends the supervisor request),
    [main] first subscribes to the command topic at QoS at most once and,
    only if that succeeds, publishes the discovery payload on the config
    topic, retained, at QoS at least once; a failure of either call panics
    and stops the program.  The payload is
    [{"command_topic": "<command>", "state_topic": "<state>", "name": "<name>" }]:
    when the base topic and the name contain no double quote, backslash or
    control character it is a JSON object with exactly these three
    members. *)
Theorem startup_subscribe_then_discovery :
  forall (w : World) (j : JValue) (cfg : Config) (ip : IpAddr)
         (tr : list Action) (creds : Creds),
    w_config_file w = Some j -> decode_config j = Ok cfg ->
    w_parse_ip w (uhppote_device_ip cfg) = Some ip ->
    resolve w cfg [] = (tr, Done creds) ->
    Forall is_http_get tr
    /\ (w_subscribe_ok w = false ->
        main w [] = (app tr [subscription_of cfg], Panic unwrap_msg))
    /\ (w_subscribe_ok w = true -> w_publish_ok w (count_publishes tr) = false ->
        main w [] = (app tr [subscription_of cfg; discovery_of cfg], Panic unwrap_msg))
    /\ (w_subscribe_ok w = true ->
        exists rest, fst (main w []) = app tr (subscription_of cfg :: discovery_of cfg :: rest))
    /\ (json_plain (base_topic cfg) = true -> json_plain (name cfg) = true ->
        parse_flat_object (discovery_payload (command_topic_of (base_topic cfg))
                             (state_topic_of (base_topic cfg)) (name cfg)) =
          Some [("command_topic", command_topic_of (base_topic cfg));
                ("state_topic", state_topic_of (base_topic cfg));
                ("name", name cfg)]).
Proof.
  intros w j cfg ip tr creds Hf Hd Hip Hr.
  pose proof (main_after_resolve w j cfg ip tr creds Hf Hd Hip Hr) as Hm.
  split; [|split; [|split; [|split]]].
  - destruct (emits_resolve is_http_get w cfg (fun _ _ => I) []) as [d [Ed Fd]].
    rewrite Hr in Ed; simpl in Ed; subst tr; exact Fd.
  - intros Hs; rewrite Hm; unfold bind; rewrite announce_spec, Hs; reflexivity.
  - intros Hs Hp; rewrite Hm; unfold bind; rewrite announce_spec, Hs, Hp; reflexivity.
  - intros Hs; rewrite Hm; unfold bind; rewrite announce_spec, Hs.
    destruct (w_publish_ok w (count_publishes tr)).
    + destruct (emits_receive_loop (fun _ => True) w
                  (mkDevice (uhppote_device_id cfg) (Some ip)) (door cfg)
                  (state_topic_of (base_topic cfg)) (w_events w)
                  (fun _ => I) (fun _ => I) (fun _ => I) (fun _ => I)
                  (app tr [subscription_of cfg; discovery_of cfg])) as [d [Ed _]].
      exists d; unfold subscription_of, discovery_of in Ed |- *.
      rewrite Ed, <- app_assoc; reflexivity.
    + exists []; reflexivity.
  - intros Hb Hn; apply discovery_payload_parses; auto;
      unfold command_topic_of, state_topic_of; rewrite json_plain_app, Hb; reflexivity.
Qed.

Definition sample_config : Config :=
  mkConfig 423187757 "192.168.1.100" "Front door" 1 "uhppote-mqtt"
    (Some "broker.local") (Some 1883) (Some "mqtt") (Some "secret") "uhppote".

Definition sample_creds : Creds := mkCreds "broker.local" 1883 "mqtt" "secret".

Definition sample_static_world (evs : list Event) : World :=
  sample_world (Some (config_json "Front door" "uhppote")) no_env None evs.

Lemma startup_subscribe_then_discovery_witness :
  decode_config (config_json "Front door" "uhppote") = Ok sample_config /\
  resolve (sample_static_world []) sample_config [] = ([], Done sample_creds) /\
  parse_flat_object sample_discovery =
    Some [("command_topic", "uhppote/command"); ("state_topic", "uhppote/state");
          ("name", "Front door")].
Proof.
  split; [reflexivity|]. split; [reflexivity|].
  exact (proj2 (proj2 (proj2 (proj2
    (startup_subscribe_then_discovery (sample_static_world [])
       (config_json "Front door" "uhppote") sample_config [192; 168; 1; 100] []
       sample_creds eq_refl eq_refl eq_refl eq_refl)))) eq_refl eq_refl).
Defined.

(** ** C6: the three topics *)

Definition loaded_config (w : World) : option Config :=
  match w_config_file w with
  | Some j => match decode_config j with Ok c => Some c | Err _ => None end
  | None => None
  end.

Definition topic_set (b : string) : list string :=
  [config_topic_of b; state_topic_of b; command_topic_of b].

(** Publishes and subscriptions use a topic of [topic_set b]. *)
Definition topic_within (b : string) (a : Action) : Prop :=
  match a with
  | ActSubscribe tp _ => In tp (topic_set b)
  | ActPublish tp _ _ _ => In tp (topic_set b)
  | _ => True
  end.

Lemma append_cancel (b x y : string) : b ++ x = b ++ y -> x = y.
Proof. induction b as [|c b IH]; simpl; [auto|]. intros H; injection H; auto. Qed.

Lemma main_after_ip (w : World) (j : JValue) (cfg : Config) (ip : IpAddr) :
  w_config_file w = Some j -> decode_config j = Ok cfg ->
  w_parse_ip w (uhppote_device_ip cfg) = Some ip ->
  main w [] =
    (_ <- resolve w cfg ;;
     _ <- announce w (config_topic_of (base_topic cfg)) (state_topic_of (base_topic cfg))
                     (command_topic_of (base_topic cfg)) (name cfg) ;;
     receive_loop w (mkDevice (uhppote_device_id cfg) (Some ip)) (door cfg)
       (state_topic_of (base_topic cfg)) (w_events w)) [].
Proof.
  intros Hf Hd Hip.
  unfold main.
  rewrite (bind_done _ _ [] [] j) by (rewrite Hf; reflexivity); cbv beta zeta.
  rewrite (bind_done _ _ [] [] cfg) by (rewrite Hd; reflexivity); cbv beta zeta.
  rewrite (bind_done _ _ [] [] ip) by (rewrite Hip; reflexivity); reflexivity.
Qed.

Lemma main_no_config (w : World) :
  loaded_config w = None -> exists e, main w [] = ([], Exit e).
Proof.
  unfold loaded_config, main, bind; intros H.
  destruct (w_config_file w) as [j|]; [|eexists; reflexivity].
  destruct (decode_config j) eqn:Hd; [discriminate|].
  simpl; rewrite Hd; eexists; reflexivity.
Qed.

(** C6. For every base topic B the derived topics are exactly B + "/config",
    B + "/state" and B + "/command", three distinct strings; and every
    publish and every subscription [main] makes uses one of them (when no
    config is loaded, [main] makes no call at all). *)
Theorem topics_derived_and_only_used :
  forall (b : string),
    topic_set b = [b ++ "/config"; b ++ "/state"; b ++ "/command"]
    /\ NoDup (topic_set b)
    /\ forall (w : World),
         match loaded_config w with
         | Some cfg => Forall (topic_within (base_topic cfg)) (fst (main w []))
         | None => fst (main w []) = []
         end.
Proof.
  intros b; split; [reflexivity|split].
  - unfold topic_set, config_topic_of, state_topic_of, command_topic_of.
    repeat constructor; simpl; intros H;
      repeat (destruct H as [H|H]; [apply append_cancel in H; discriminate|]); exact H.
  - intros w.
    destruct (loaded_config w) as [cfg|] eqn:Hl.
    + unfold loaded_config in Hl.
      destruct (w_config_file w) as [j|] eqn:Hf; [|discriminate].
      destruct (decode_config j) as [c|] eqn:Hd; [|discriminate].
      injection Hl as <-.
      destruct (w_parse_ip w (uhppote_device_ip c)) as [ip|] eqn:Hip.
      * rewrite (main_after_ip w j c ip Hf Hd Hip).
        assert (E : emits (topic_within (base_topic c))
          (_ <- resolve w c ;;
           _ <- announce w (config_topic_of (base_topic c)) (state_topic_of (base_topic c))
                           (command_topic_of (base_topic c)) (name c) ;;
           receive_loop w (mkDevice (uhppote_device_id c) (Some ip)) (door c)
             (state_topic_of (base_topic c)) (w_events w))).
        { apply emits_bind; [apply emits_resolve; simpl; auto|intros _].
          apply emits_bind; [apply emits_announce; simpl; auto|intros _].
          apply emits_receive_loop; simpl; auto. }
        destruct (E []) as [d [Ed Fd]]; rewrite Ed; exact Fd.
      * unfold main, bind; rewrite Hf; simpl; rewrite Hd; simpl; rewrite Hip; simpl; constructor.
    + destruct (main_no_config w Hl) as [e He]; rewrite He; reflexivity.
Qed.

(** ** serde field collection *)

Lemma json_field_app (k k' : string) (v : JValue) (acc : list (string * JValue)) :
  json_field k (app acc [(k', v)]) =
    match json_field k acc with
    | Some v0 => Some v0
    | None => if String.eqb k k' then Some v else None
    end.
Proof.
  induction acc as [|[k0 v0] acc IH]; simpl; [reflexivity|].
  destruct (String.eqb k k0); [reflexivity | exact IH].
Qed.

Lemma existsb_eqb_in (k : string) (l : list string) :
  existsb (String.eqb k) l = true <-> In k l.
Proof.
  rewrite existsb_exists; split.
  - intros [x [Hx E]]; apply String.eqb_eq in E; subst; exact Hx.
  - intros H; exists k; split; [exact H | apply String.eqb_refl].
Qed.

(** After collection, a known field is its first entry in the input. *)
Lemma collect_field (known : list string) (value : FieldValue)
  (es acc acc' : list (string * JValue)) :
  collect known value es acc = Ok acc' ->
  forall k, In k known ->
    json_field k acc' =
      match json_field k acc with Some v => Some v | None => json_field k es end.
Proof.
  revert acc; induction es as [|[k0 v] es IH]; intros acc Hc k Hk; simpl in Hc.
  - injection Hc as <-; simpl; destruct (json_field k acc); reflexivity.
  - simpl.
    destruct (existsb (String.eqb k0) known) eqn:Ek.
    + destruct (json_field k0 acc) eqn:Ea; [discriminate|].
      unfold rbind in Hc; destruct (value k0 v); [|discriminate].
      rewrite (IH _ Hc k Hk), json_field_app.
      destruct (json_field k acc); [reflexivity|].
      destruct (String.eqb k k0); reflexivity.
    + rewrite (IH _ Hc k Hk).
      destruct (String.eqb k k0) eqn:E; [|reflexivity].
      apply String.eqb_eq in E; subst k0.
      apply existsb_eqb_in in Hk; congruence.
Qed.

Lemma de_string_ok (f s : string) (o : option JValue) :
  de_string f o = Ok s -> o = Some (JStr s).
Proof. destruct o as [[]|]; simpl; intros H; try discriminate; congruence. Qed.

Ltac destruct_results :=
  repeat match goal with
  | H : context [match ?x with Ok _ => _ | Err _ => _ end] |- _ =>
      let E := fresh "E" in destruct x eqn:E; [|discriminate]
  end.

(** The port of a decoded [MqttConfig] is the body's first "port" entry. *)
Lemma decode_mqtt_config_port (es : list (string * JValue)) (jm : MqttConfig) :
  decode_mqtt_config (JObj es) = Ok jm -> json_field "port" es = Some (JStr (port jm)).
Proof.
  unfold decode_mqtt_config, struct_fields, rbind; intros H.
  destruct (collect mqtt_config_fields mqtt_config_value es []) as [acc|] eqn:Hc; [|discriminate].
  destruct_results.
  injection H as <-; simpl.
  match goal with E : de_string "port" _ = Ok _ |- _ => apply de_string_ok in E end.
  rewrite (collect_field _ _ _ _ _ Hc "port") in * by (simpl; tauto).
  simpl in *; congruence.
Qed.

Lemma bind_exit {A B} (m : M A) (k : A -> M B) t t' e :
  m t = (t', Exit e) -> bind m k t = (t', Exit e).
Proof. intros H; unfold bind; rewrite H; reflexivity. Qed.

Definition supervisor_url : string := "http://supervisor/services/mqtt".

(** ** C7: supervisor failures stop the bridge *)

Definition supervisor_get (tok : string) : Action :=
  ActHttpGet supervisor_url ("Bearer " ++ tok).

Lemma main_resolve_exit (w : World) (j : JValue) (cfg : Config) (ip : IpAddr)
  (tr : list Action) (e : Error) :
  w_config_file w = Some j -> decode_config j = Ok cfg ->
  w_parse_ip w (uhppote_device_ip cfg) = Some ip ->
  resolve w cfg [] = (tr, Exit e) -> main w [] = (tr, Exit e).
Proof.
  intros Hf Hd Hip Hr; rewrite (main_after_ip w j cfg ip Hf Hd Hip).
  apply bind_exit; exact Hr.
Qed.

Lemma resolve_http (w : World) (cfg : Config) (hv tok : string) (resp : HttpResponse) :
  w_env w "HASS_TOKEN" = Present hv -> w_env w "SUPERVISOR_TOKEN" = Present tok ->
  w_http w = Some resp ->
  (Z.eqb (status resp) 200 = false ->
   resolve w cfg [] = ([supervisor_get tok], Exit (ErrHassStatus (status resp))))
  /\ (forall es jm, Z.eqb (status resp) 200 = true -> body resp = Some (JObj es) ->
        decode_mqtt_config (JObj es) = Ok jm -> parse_u16 (port jm) = None ->
        resolve w cfg [] = ([supervisor_get tok], Exit ErrParseInt))
  /\ (forall es e, Z.eqb (status resp) 200 = true -> body resp = Some (JObj es) ->
        decode_mqtt_config (JObj es) = Err e ->
        resolve w cfg [] = ([supervisor_get tok], Exit (ErrJson e))).
Proof.
  intros Hh Hs Hr.
  unfold resolve, hass_config; rewrite Hh, Hs; simpl env_is_ok; cbv iota.
  unfold unwrap_var, bind, emit, ret, exit; rewrite Hr; simpl.
  split; [|split].
  - intros E; rewrite E; reflexivity.
  - intros es jm E Hb Hdec Hp; rewrite E, Hb; simpl; rewrite Hdec; simpl; rewrite Hp;
      reflexivity.
  - intros es e E Hb Hdec; rewrite E, Hb; simpl; rewrite Hdec; reflexivity.
Qed.

(** C7. In supervisor mode (HASS_TOKEN set, token read), a reply whose
    status is not a success makes [main] return the error
    "Failed to get MQTT config from HASS: <status>" right after the request,
    and a success reply whose "port" field is a string that does not parse as
    a [u16] makes [main] return an error as well; in both cases nothing is
    subscribed or published. *)
Theorem supervisor_failure_stops_startup :
  forall (w : World) (j : JValue) (cfg : Config) (ip : IpAddr)
         (hv tok : string) (resp : HttpResponse),
    w_config_file w = Some j -> decode_config j = Ok cfg ->
    w_parse_ip w (uhppote_device_ip cfg) = Some ip ->
    w_env w "HASS_TOKEN" = Present hv -> w_env w "SUPERVISOR_TOKEN" = Present tok ->
    w_http w = Some resp ->
    (~ (200 <= status resp < 300) ->
     main w [] = ([supervisor_get tok], Exit (ErrHassStatus (status resp))))
    /\ (forall es s, 200 <= status resp < 300 -> body resp = Some (JObj es) ->
          json_field "port" es = Some (JStr s) -> parse_u16 s = None ->
          exists e, main w [] = ([supervisor_get tok], Exit e)).
Proof.
  intros w j cfg ip hv tok resp Hf Hd Hip Hh Hs Hr.
  destruct (resolve_http w cfg hv tok resp Hh Hs Hr) as [R1 [R2 R3]].
  split.
  - intros Hn; apply (main_resolve_exit w j cfg ip); auto.
    apply R1, Z.eqb_neq; intros E; apply Hn; lia.
  - intros es s Hst Hb Hport Hp.
    destruct (Z.eqb (status resp) 200) eqn:E.
    + destruct (decode_mqtt_config (JObj es)) as [jm|e] eqn:Hdec.
      * exists ErrParseInt; apply (main_resolve_exit w j cfg ip); auto.
        apply (R2 es jm); auto.
        apply decode_mqtt_config_port in Hdec; congruence.
      * exists (ErrJson e); apply (main_resolve_exit w j cfg ip); auto.
        apply (R3 es e); auto.
    + exists (ErrHassStatus (status resp)); apply (main_resolve_exit w j cfg ip); auto.
Qed.

(** The supervisor environment of a Home Assistant add-on. *)
Definition hass_env (k : string) : VarResult :=
  if String.eqb k "HASS_TOKEN" then Present "1"
  else if String.eqb k "SUPERVISOR_TOKEN" then Present "tok"
  else NotPresent.

Lemma supervisor_failure_stops_startup_witness :
  main (sample_world (Some (config_json "Front door" "uhppote")) hass_env
          (Some (mkResponse 401 None)) []) [] =
    ([supervisor_get "tok"], Exit (ErrHassStatus 401)).
Proof.
  refine (proj1 (supervisor_failure_stops_startup
    (sample_world (Some (config_json "Front door" "uhppote")) hass_env
       (Some (mkResponse 401 None)) [])
    (config_json "Front door" "uhppote") sample_config [192; 168; 1; 100] "1" "tok"
    (mkResponse 401 None) eq_refl eq_refl eq_refl eq_refl eq_refl eq_refl) _).
  simpl; lia.
Defined.

(** ** C8: what the supervisor's reply must contain *)

Fixpoint count_key (k : string) (es : list (string * JValue)) : nat :=
  match es with
  | [] => 0%nat
  | (k', _) :: rest => ((if String.eqb k k' then 1 else 0) + count_key k rest)%nat
  end.

Lemma json_field_none_count (k : string) (es : list (string * JValue)) :
  json_field k es = None -> count_key k es = 0%nat.
Proof.
  induction es as [|[k' v] es IH]; simpl; [auto|].
  destruct (String.eqb k k'); [discriminate | exact IH].
Qed.

(** Collection succeeds when no known field occurs twice and every known
    field's value has the field's type. *)
Lemma collect_ok (known : list string) (value : FieldValue) (es acc : list (string * JValue)) :
  (forall k, In k known ->
     (count_key k es + (if json_field k acc then 1 else 0) <= 1)%nat) ->
  (forall k v, In k known -> In (k, v) es -> value k v = Ok tt) ->
  exists acc', collect known value es acc = Ok acc'.
Proof.
  revert acc; induction es as [|[k0 v] es IH]; intros acc H Hv; simpl; [eauto|].
  destruct (existsb (String.eqb k0) known) eqn:Ek.
  - apply existsb_eqb_in in Ek.
    pose proof (H k0 Ek) as H0; simpl in H0; rewrite String.eqb_refl in H0.
    destruct (json_field k0 acc) eqn:Ea; [lia|].
    rewrite (Hv k0 v Ek (or_introl eq_refl)); simpl.
    apply IH; [|intros k v' Hk Hi; apply Hv; [exact Hk | right; exact Hi]].
    intros k Hk; specialize (H k Hk); simpl in H.
    rewrite json_field_app.
    destruct (json_field k acc); [lia|].
    destruct (String.eqb k k0); lia.
  - apply IH; [|intros k v' Hk Hi; apply Hv; [exact Hk | right; exact Hi]].
    intros k Hk; specialize (H k Hk); simpl in H.
    destruct (String.eqb k k0) eqn:E; [|lia].
    apply String.eqb_eq in E; subst k0; apply existsb_eqb_in in Hk; congruence.
Qed.

Lemma count_key_in (k : string) (v : JValue) (es : list (string * JValue)) :
  In (k, v) es -> (1 <= count_key k es)%nat.
Proof.
  induction es as [|[k' v'] es IH]; simpl; [tauto|].
  intros [E|H].
  - injection E as -> ->; rewrite String.eqb_refl; lia.
  - specialize (IH H); lia.
Qed.

Lemma json_field_unique (k : string) (v : JValue) (es : list (string * JValue)) :
  (count_key k es <= 1)%nat -> In (k, v) es -> json_field k es = Some v.
Proof.
  induction es as [|[k' v'] es IH]; simpl; [tauto|].
  destruct (String.eqb k k') eqn:E.
  - apply String.eqb_eq in E; subst k'; intros Hc [E|H].
    + injection E as ->; reflexivity.
    + pose proof (count_key_in k v es H); lia.
  - intros Hc [E'|H].
    + injection E' as -> ->; rewrite String.eqb_refl in E; discriminate.
    + apply IH; [lia | exact H].
Qed.

Lemma decode_mqtt_config_fields (es : list (string * JValue))
  (a h ps u pw pr : string) (sl : bool) :
  (forall k, In k mqtt_config_fields -> (count_key k es <= 1)%nat) ->
  json_field "addon" es = Some (JStr a) -> json_field "host" es = Some (JStr h) ->
  json_field "port" es = Some (JStr ps) -> json_field "ssl" es = Some (JBool sl) ->
  json_field "username" es = Some (JStr u) -> json_field "password" es = Some (JStr pw) ->
  json_field "protocol" es = Some (JStr pr) ->
  decode_mqtt_config (JObj es) = Ok (mkMqttConfig a h ps sl u pw pr).
Proof.
  intros Hc H1 H2 H3 H4 H5 H6 H7.
  destruct (collect_ok mqtt_config_fields mqtt_config_value es [])
    as [acc Hacc]; [intros k Hk; simpl; rewrite Nat.add_0_r; auto| |].
  { intros k v Hk Hi.
    pose proof (json_field_unique k v es (Hc k Hk) Hi) as Hf.
    simpl in Hk; repeat destruct Hk as [<-|Hk]; try contradiction;
      [rewrite H1 in Hf | rewrite H2 in Hf | rewrite H3 in Hf | rewrite H4 in Hf
      | rewrite H5 in Hf | rewrite H6 in Hf | rewrite H7 in Hf];
      injection Hf as <-; reflexivity. }
  unfold decode_mqtt_config, struct_fields; rewrite Hacc; simpl.
  rewrite !(collect_field _ _ _ _ _ Hacc) by (simpl; tauto); simpl.
  rewrite H1, H2, H3, H4, H5, H6, H7; reflexivity.
Qed.

Lemma decode_mqtt_config_required (es : list (string * JValue)) (jm : MqttConfig) :
  decode_mqtt_config (JObj es) = Ok jm ->
  forall k, In k mqtt_config_fields -> json_field k es <> None.
Proof.
  unfold decode_mqtt_config, struct_fields, rbind; intros H.
  destruct (collect mqtt_config_fields mqtt_config_value es []) as [acc|] eqn:Hc; [|discriminate].
  destruct_results.
  intros k Hk Hn.
  assert (Ha : json_field k acc = None)
    by (rewrite (collect_field _ _ _ _ _ Hc k Hk); exact Hn).
  simpl in Hk; repeat destruct Hk as [<-|Hk]; try contradiction;
    rewrite Ha in *; discriminate.
Qed.

(** The reply of a supervisor reporting host, port and credentials only. *)
Definition four_field_reply : JValue :=
  JObj [("host", JStr "core-mosquitto"); ("port", JStr "1883");
        ("username", JStr "addons"); ("password", JStr "pw");
        ("ssl_port", JNum 8883)].

(** C8 (the claim as written fails). A 200 reply carrying host, port,
    username and password but no "addon", "ssl" or "protocol" field does not
    deserialise into [MqttConfig]: [main] stops with the missing-field
    error right after the request. *)
Lemma four_fields_are_not_enough :
  main (sample_world (Some (config_json "Front door" "uhppote")) hass_env
          (Some (mkResponse 200 (Some four_field_reply))) []) [] =
    ([supervisor_get "tok"], Exit (ErrJson (MissingField "addon"))).
Proof. vm_compute; reflexivity. Qed.

(** C8 (as the code does it). In supervisor mode, with a reply of status 200
    whose body is a JSON object: if one of the seven [MqttConfig] fields
    (addon, host, port, ssl, username, password, protocol) is absent,
    resolution fails; if each occurs at most once, with string values (ssl a
    boolean) and a port parsing as a [u16], resolution returns exactly host,
    port, username and password, whatever other fields the body has (unless
    the configured client id is refused by [MqttOptions::new], which then
    panics). *)
Theorem supervisor_credentials :
  forall (w : World) (cfg : Config) (hv tok : string) (es : list (string * JValue)),
    w_env w "HASS_TOKEN" = Present hv -> w_env w "SUPERVISOR_TOKEN" = Present tok ->
    w_http w = Some (mkResponse 200 (Some (JObj es))) ->
    (forall k, In k mqtt_config_fields -> json_field k es = None ->
       exists e, resolve w cfg [] = ([supervisor_get tok], Exit e))
    /\ (forall (a h ps u pw pr : string) (sl : bool) (p : Z),
          (forall k, In k mqtt_config_fields -> (count_key k es <= 1)%nat) ->
          json_field "addon" es = Some (JStr a) -> json_field "host" es = Some (JStr h) ->
          json_field "port" es = Some (JStr ps) -> json_field "ssl" es = Some (JBool sl) ->
          json_field "username" es = Some (JStr u) ->
          json_field "password" es = Some (JStr pw) ->
          json_field "protocol" es = Some (JStr pr) ->
          parse_u16 ps = Some p ->
          resolve w cfg [] =
            ([supervisor_get tok],
             if client_id_ok (mqtt_id cfg) then Done (mkCreds h p u pw)
             else Panic "Invalid client id")).
Proof.
  intros w cfg hv tok es Hh Hs Hr.
  destruct (resolve_http w cfg hv tok _ Hh Hs Hr) as [_ [_ R3]].
  split.
  - intros k Hk Hn.
    destruct (decode_mqtt_config (JObj es)) as [jm|e] eqn:Hdec.
    + exfalso; exact (decode_mqtt_config_required es jm Hdec k Hk Hn).
    + exists (ErrJson e); apply (R3 es e); auto.
  - intros a h ps u pw pr sl p Hc H1 H2 H3 H4 H5 H6 H7 Hp.
    pose proof (decode_mqtt_config_fields es a h ps u pw pr sl Hc H1 H2 H3 H4 H5 H6 H7)
      as Hdec.
    unfold resolve, hass_config; rewrite Hh, Hs; simpl env_is_ok; cbv iota.
    unfold unwrap_var, bind, emit, ret, exit; rewrite Hr; simpl.
    rewrite Hdec; simpl; rewrite Hp; simpl.
    unfold mqtt_options_new, ret, panic; destruct (client_id_ok (mqtt_id cfg)); reflexivity.
Qed.

Definition addon_reply_fields : list (string * JValue) :=
  [("addon", JStr "core_mosquitto"); ("host", JStr "core-mosquitto");
   ("port", JStr "1883"); ("ssl", JBool false); ("username", JStr "addons");
   ("password", JStr "pw"); ("protocol", JStr "3.1.1"); ("ssl_port", JNum 8883)].

Definition addon_world : World :=
  sample_world (Some (config_json "Front door" "uhppote")) hass_env
    (Some (mkResponse 200 (Some (JObj addon_reply_fields)))) [].

Lemma supervisor_credentials_witness :
  resolve addon_world sample_config [] =
    ([supervisor_get "tok"], Done (mkCreds "core-mosquitto" 1883 "addons" "pw")).
Proof.
  refine (proj2 (supervisor_credentials addon_world sample_config "1" "tok"
                   addon_reply_fields eq_refl eq_refl eq_refl)
            "core_mosquitto" "core-mosquitto" "1883" "addons" "pw" "3.1.1" false 1883
            _ eq_refl eq_refl eq_refl eq_refl eq_refl eq_refl eq_refl eq_refl).
  intros k Hk; simpl in Hk; repeat destruct Hk as [<-|Hk]; try contradiction;
    vm_compute; lia.
Defined.

(** ** C9: the device address *)

Definition config_json_without_ip : JValue :=
  JObj [("uhppote_device_id", JNum 423187757);
        ("name", JStr "Front door");
        ("door", JNum 1);
        ("mqtt_id", JStr "uhppote-mqtt");
        ("mqtt_host", JStr "broker.local");
        ("mqtt_port", JNum 1883);
        ("mqtt_username", JStr "mqtt");
        ("mqtt_password", JStr "secret");
        ("base_topic", JStr "uhppote")].

(** C9 (the claim as written fails). A config file without
    "uhppote_device_ip" is rejected: [main] returns the missing-field error
    before any other step. *)
Lemma config_without_ip_rejected :
  main (sample_world (Some config_json_without_ip) no_env None
          [EvIncomingPublish "uhppote/command" LOCK_bytes]) [] =
    ([], Exit (ErrJson (MissingField "uhppote_device_ip"))).
Proof. vm_compute; reflexivity. Qed.

Lemma decode_config_needs_ip (es : list (string * JValue)) (c : Config) :
  decode_config (JObj es) = Ok c -> json_field "uhppote_device_ip" es <> None.
Proof.
  unfold decode_config, struct_fields, rbind; intros H.
  destruct (collect config_fields config_value es []) as [acc|] eqn:Hc; [|discriminate].
  destruct_results.
  intros Hn.
  assert (Ha : json_field "uhppote_device_ip" acc = None)
    by (rewrite (collect_field _ _ _ _ _ Hc "uhppote_device_ip") by (simpl; tauto); exact Hn).
  rewrite Ha in *; discriminate.
Qed.

(** Device calls go to [d]. *)
Definition device_is (d : Device) (a : Action) : Prop :=
  match a with ActDevice d' _ _ => d' = d | _ => True end.

(** C9 (as the code does it). The device address is a required field: a
    config object without it is rejected and the bridge does nothing.  The
    address must parse as an IP address, or [main] stops before any call;
    when it does, every door-control call goes to the device with the
    configured id at that address (never a broadcast-only device). *)
Theorem device_address_required :
  (forall (w : World) (es : list (string * JValue)),
     w_config_file w = Some (JObj es) -> json_field "uhppote_device_ip" es = None ->
     exists e, main w [] = ([], Exit e))
  /\ (forall (w : World) (j : JValue) (cfg : Config),
        w_config_file w = Some j -> decode_config j = Ok cfg ->
        (w_parse_ip w (uhppote_device_ip cfg) = None -> main w [] = ([], Exit ErrAddrParse))
        /\ (forall ip, w_parse_ip w (uhppote_device_ip cfg) = Some ip ->
              Forall (device_is (mkDevice (uhppote_device_id cfg) (Some ip)))
                (fst (main w [])))).
Proof.
  split.
  - intros w es Hf Hn.
    destruct (decode_config (JObj es)) as [c|e] eqn:Hd.
    + exfalso; exact (decode_config_needs_ip es c Hd Hn).
    + exists (ErrJson e); unfold main, bind; rewrite Hf; simpl; rewrite Hd; reflexivity.
  - intros w j cfg Hf Hd; split.
    + intros Hip; unfold main, bind; rewrite Hf; simpl; rewrite Hd; simpl; rewrite Hip;
        reflexivity.
    + intros ip Hip; rewrite (main_after_ip w j cfg ip Hf Hd Hip).
      assert (E : emits (device_is (mkDevice (uhppote_device_id cfg) (Some ip)))
        (_ <- resolve w cfg ;;
         _ <- announce w (config_topic_of (base_topic cfg)) (state_topic_of (base_topic cfg))
                         (command_topic_of (base_topic cfg)) (name cfg) ;;
         receive_loop w (mkDevice (uhppote_device_id cfg) (Some ip)) (door cfg)
           (state_topic_of (base_topic cfg)) (w_events w))).
      { apply emits_bind; [apply emits_resolve; simpl; auto|intros _].
        apply emits_bind; [apply emits_announce; simpl; auto|intros _].
        apply emits_receive_loop; simpl; auto. }
      destruct (E []) as [d [Ed Fd]]; rewrite Ed; exact Fd.
Qed.

Lemma device_address_required_witness :
  (exists e, main (sample_world (Some config_json_without_ip) no_env None []) [] = ([], Exit e))
  /\ Forall (device_is sample_device)
       (fst (main (sample_static_world [EvIncomingPublish "uhppote/command" LOCK_bytes]) [])).
Proof.
  split.
  - exact (proj1 device_address_required
      (sample_world (Some config_json_without_ip) no_env None []) _ eq_refl eq_refl).
  - exact (proj2 (proj2 device_address_required
      (sample_static_world [EvIncomingPublish "uhppote/command" LOCK_bytes])
      (config_json "Front door" "uhppote") sample_config eq_refl eq_refl)
      [192; 168; 1; 100] eq_refl).
Defined.

(** ** C10: HASS_TOKEN without SUPERVISOR_TOKEN *)

(** HASS_TOKEN holds bytes that are not valid Unicode; no SUPERVISOR_TOKEN. *)
Definition non_unicode_hass_env (k : string) : VarResult :=
  if String.eqb k "HASS_TOKEN" then NotUnicode else NotPresent.

(** C10 (the claim as written fails). HASS_TOKEN is set but its value is not
    valid Unicode, so [std::env::var("HASS_TOKEN").is_ok()] is false; with
    SUPERVISOR_TOKEN unset the bridge does not panic: it uses the static
    broker parameters, subscribes and announces itself. *)
Lemma non_unicode_hass_token_no_panic :
  main (sample_world (Some (config_json "Front door" "uhppote")) non_unicode_hass_env
          None []) [] =
    ([ActSubscribe "uhppote/command" AtMostOnce;
      ActPublish "uhppote/config" AtLeastOnce true sample_discovery], Done tt).
Proof. vm_compute; reflexivity. Qed.

(** C10 (as the code does it). Once the config is decoded and the device
    address parsed, if HASS_TOKEN holds a valid Unicode value and
    SUPERVISOR_TOKEN is unset, [main] panics on the [unwrap] that builds the
    authorization header, with an empty trace: no request is sent.  A
    HASS_TOKEN that is not valid Unicode does not select supervisor mode. *)
Theorem missing_supervisor_token_panics :
  forall (w : World) (j : JValue) (cfg : Config) (ip : IpAddr),
    w_config_file w = Some j -> decode_config j = Ok cfg ->
    w_parse_ip w (uhppote_device_ip cfg) = Some ip ->
    (forall hv, w_env w "HASS_TOKEN" = Present hv ->
       w_env w "SUPERVISOR_TOKEN" = NotPresent ->
       main w [] = ([], Panic unwrap_msg))
    /\ (w_env w "HASS_TOKEN" = NotUnicode -> hass_config w cfg [] = ([], Done cfg)).
Proof.
  intros w j cfg ip Hf Hd Hip; split.
  - intros hv Hh Hs.
    rewrite (main_after_ip w j cfg ip Hf Hd Hip).
    unfold bind at 1.
    replace (resolve w cfg []) with (@nil Action, @Panic Creds unwrap_msg); [reflexivity|].
    unfold resolve, hass_config; rewrite Hh, Hs; reflexivity.
  - intros Hh; unfold hass_config; rewrite Hh; reflexivity.
Qed.

Lemma missing_supervisor_token_panics_witness :
  main (sample_world (Some (config_json "Front door" "uhppote"))
          (fun k => if String.eqb k "HASS_TOKEN" then Present "1" else NotPresent)
          None []) [] = ([], Panic unwrap_msg).
Proof.
  exact (proj1 (missing_supervisor_token_panics
    (sample_world (Some (config_json "Front door" "uhppote"))
       (fun k => if String.eqb k "HASS_TOKEN" then Present "1" else NotPresent) None [])
    (config_json "Front door" "uhppote") sample_config [192; 168; 1; 100]
    eq_refl eq_refl eq_refl) "1" eq_refl eq_refl).
Defined.

(** * Further properties of the program *)

(** ** The receive loop, event by event *)

(** The body of the receive loop for a door command: the device call, then
    either the state publish (unwrapped) or the logged device error. *)
Definition command_step (w : World) (dev : Device) (d : Z) (st : string)
  (ctl : DoorControl) (label : string) (t : list Action) : list Action * Step unit :=
  let t1 := app t [ActDevice dev d ctl] in
  match w_device w (count_device t) dev d ctl with
  | Ok _ => (app t1 [ActPublish st AtLeastOnce false label],
             if w_publish_ok w (count_publishes t1) then Done tt else Panic unwrap_msg)
  | Err c => (app t1 [ActLogError (ErrDevice c)], Done tt)
  end.

Lemma loop_step_publish (w : World) (dev : Device) (d : Z) (st tp : string)
  (p : list byte) (t : list Action) :
  loop_step w dev d st (EvIncomingPublish tp p) t =
    if bytes_eqb p LOCK_bytes then command_step w dev d st lock_ctl "LOCKED" t
    else if bytes_eqb p UNLOCK_bytes then command_step w dev d st unlock_ctl "UNLOCKED" t
    else match utf8_error_at p 0 with
         | None => (t, Done tt)
         | Some n => (app t [ActLogError (ErrUtf8 n)], Done tt)
         end.
Proof.
  destruct (bytes_eqb p LOCK_bytes) eqn:E1.
  - apply bytes_eqb_true in E1; subst p.
    unfold loop_step, command_step, handle_payload, bind, set_door_control_state,
      publish, unwrap_client, ret, panic, emit; cbn.
    destruct (w_device _ _ _ _ _); [|reflexivity].
    destruct (w_publish_ok _ _); reflexivity.
  - destruct (bytes_eqb p UNLOCK_bytes) eqn:E2.
    + apply bytes_eqb_true in E2; subst p.
      unfold loop_step, command_step, handle_payload, bind, set_door_control_state,
        publish, unwrap_client, ret, panic, emit; cbn.
      destruct (w_device _ _ _ _ _); [|reflexivity].
      destruct (w_publish_ok _ _); reflexivity.
    + unfold loop_step, bind, handle_payload, from_utf8.
      destruct (utf8_error_at p 0); [reflexivity|].
      rewrite E1, E2; reflexivity.
Qed.

(** X1. One iteration of the receive loop never makes [main] return an
    error: it either continues, or panics, and the only panic is the
    [unwrap] of a state publish the client refused, which is then the last
    action. *)
Theorem loop_step_never_exits :
  forall (w : World) (dev : Device) (d : Z) (st : string) (ev : Event) (t : list Action),
    snd (loop_step w dev d st ev t) = Done tt
    \/ (snd (loop_step w dev d st ev t) = Panic unwrap_msg
        /\ exists pre label,
             fst (loop_step w dev d st ev t) =
               app pre [ActPublish st AtLeastOnce false label]
             /\ w_publish_ok w (count_publishes pre) = false).
Proof.
  intros w dev d st ev t.
  destruct ev as [tp p| | |m]; try (left; reflexivity).
  rewrite loop_step_publish.
  assert (C : forall ctl label,
    snd (command_step w dev d st ctl label t) = Done tt
    \/ (snd (command_step w dev d st ctl label t) = Panic unwrap_msg
        /\ exists pre lbl,
             fst (command_step w dev d st ctl label t) =
               app pre [ActPublish st AtLeastOnce false lbl]
             /\ w_publish_ok w (count_publishes pre) = false)).
  { intros ctl label; unfold command_step.
    destruct (w_device _ _ _ _ _); [|left; reflexivity].
    destruct (w_publish_ok w (count_publishes (app t [ActDevice dev d ctl]))) eqn:E;
      [left; reflexivity|].
    right; split; [reflexivity|].
    exists (app t [ActDevice dev d ctl]), label; split; [reflexivity | exact E]. }
  destruct (bytes_eqb p LOCK_bytes); [apply C|].
  destruct (bytes_eqb p UNLOCK_bytes); [apply C|].
  destruct (utf8_error_at p 0); left; reflexivity.
Qed.

(** X2. A door command whose device call fails is logged with the device's
    cause and nothing is published; the loop goes on. *)
Theorem device_failure_logged :
  forall (w : World) (dev : Device) (d : Z) (st tp : string) (t : list Action)
         (ctl : DoorControl) (cmd : list byte) (c : string),
    (cmd = LOCK_bytes /\ ctl = lock_ctl) \/ (cmd = UNLOCK_bytes /\ ctl = unlock_ctl) ->
    w_device w (count_device t) dev d ctl = Err c ->
    loop_step w dev d st (EvIncomingPublish tp cmd) t =
      (app t [ActDevice dev d ctl; ActLogError (ErrDevice c)], Done tt).
Proof.
  intros w dev d st tp t ctl cmd c [[-> ->]|[-> ->]] Hd;
    rewrite loop_step_publish; simpl; unfold command_step; rewrite Hd;
    rewrite <- app_assoc; reflexivity.
Qed.

Definition failing_device_world : World :=
  mkWorld None (fun _ => None) (fun _ => NotPresent) None true (fun _ => true)
    (fun _ _ _ _ => Err "no reply") [].

Lemma device_failure_logged_witness :
  loop_step failing_device_world sample_device 1 "uhppote/state"
    (EvIncomingPublish "uhppote/command" UNLOCK_bytes) [] =
  ([ActDevice sample_device 1 unlock_ctl; ActLogError (ErrDevice "no reply")], Done tt).
Proof.
  exact (device_failure_logged failing_device_world sample_device 1 "uhppote/state"
    "uhppote/command" [] unlock_ctl UNLOCK_bytes "no reply"
    (or_intror (conj eq_refl eq_refl)) eq_refl).
Defined.

(** Whether an event carries exactly the bytes "LOCK" or "UNLOCK". *)
Definition is_command (ev : Event) : bool :=
  match ev with
  | EvIncomingPublish _ p => bytes_eqb p LOCK_bytes || bytes_eqb p UNLOCK_bytes
  | _ => false
  end.

Fixpoint count_commands (evs : list Event) : nat :=
  match evs with
  | [] => 0%nat
  | ev :: rest => ((if is_command ev then 1 else 0) + count_commands rest)%nat
  end.

Lemma loop_step_accepting (w : World) (dev : Device) (d : Z) (st : string)
  (ev : Event) (t : list Action) :
  (forall i, w_publish_ok w i = true) ->
  exists d', loop_step w dev d st ev t = (app t d', Done tt)
             /\ count_device d' = (if is_command ev then 1 else 0)%nat.
Proof.
  intros Hp.
  destruct ev as [tp p| | |m]; simpl is_command;
    try (exists []; rewrite app_nil_r; split; reflexivity).
  - rewrite loop_step_publish.
    assert (C : forall ctl label, exists d',
               command_step w dev d st ctl label t = (app t d', Done tt)
               /\ count_device d' = 1%nat).
    { intros ctl label; unfold command_step; rewrite Hp.
      destruct (w_device _ _ _ _ _).
      - eexists; split; [rewrite <- app_assoc; reflexivity | reflexivity].
      - eexists; split; [rewrite <- app_assoc; reflexivity | reflexivity]. }
    destruct (bytes_eqb p LOCK_bytes); [apply C|].
    destruct (bytes_eqb p UNLOCK_bytes); [apply C|].
    destruct (utf8_error_at p 0).
    + exists [ActLogError (ErrUtf8 n)]; split; reflexivity.
    + exists []; rewrite app_nil_r; split; reflexivity.
  - exists [ActPrint m]; split; reflexivity.
Qed.

(** X3. When the broker client accepts every publish, the receive loop runs
    through any sequence of events without stopping (transport errors,
    undecodable or unknown payloads and device failures are all survived),
    and it makes exactly one device call per event whose payload is exactly
    "LOCK" or "UNLOCK". *)
Theorem receive_loop_device_calls :
  forall (w : World) (dev : Device) (d : Z) (st : string)
         (evs : list Event) (t : list Action),
    (forall i, w_publish_ok w i = true) ->
    exists d', receive_loop w dev d st evs t = (app t d', Done tt)
               /\ count_device d' = count_commands evs.
Proof.
  intros w dev d st evs; induction evs as [|ev evs IH]; intros t Hp.
  - exists []; rewrite app_nil_r; split; reflexivity.
  - simpl receive_loop; unfold bind at 1.
    destruct (loop_step_accepting w dev d st ev t Hp) as [d1 [E1 C1]].
    rewrite E1.
    destruct (IH (app t d1) Hp) as [d2 [E2 C2]].
    exists (app d1 d2); rewrite E2, app_assoc; split; [reflexivity|].
    rewrite count_device_app, C1, C2; reflexivity.
Qed.

Lemma receive_loop_device_calls_witness :
  exists d', receive_loop (all_ok_world []) sample_device 1 "uhppote/state"
               [EvIncomingPublish "uhppote/command" LOCK_bytes; EvError "connection reset";
                EvIncomingPublish "uhppote/command" (list_byte_of_string "lock");
                EvIncomingPublish "uhppote/command" UNLOCK_bytes] [] = (app [] d', Done tt)
             /\ count_device d' = 2%nat.
Proof.
  exact (receive_loop_device_calls (all_ok_world []) sample_device 1 "uhppote/state"
    [EvIncomingPublish "uhppote/command" LOCK_bytes; EvError "connection reset";
     EvIncomingPublish "uhppote/command" (list_byte_of_string "lock");
     EvIncomingPublish "uhppote/command" UNLOCK_bytes] [] (fun _ => eq_refl)).
Defined.

(** What the receive loop may do: publish a label on the state topic, call
    the device, log or print; never subscribe or contact the supervisor. *)
Definition loop_action (st : string) (a : Action) : Prop :=
  match a with
  | ActPublish tp q r s => tp = st /\ q = AtLeastOnce /\ r = false
                           /\ (s = "LOCKED" \/ s = "UNLOCKED")
  | ActSubscribe _ _ | ActHttpGet _ _ => False
  | _ => True
  end.

(** X4. Everything the receive loop publishes goes to the state topic, at
    QoS at least once, not retained, with payload "LOCKED" or "UNLOCKED";
    the loop never subscribes and never sends a supervisor request. *)
Theorem receive_loop_publishes_labels :
  forall (w : World) (dev : Device) (d : Z) (st : string) (evs : list Event),
    emits (loop_action st) (receive_loop w dev d st evs).
Proof.
  intros w dev d st evs; induction evs as [|ev evs IH]; simpl; [apply emits_ret|].
  apply emits_bind; [|intros _; exact IH].
  intros t; destruct ev as [tp p| | |m];
    try (exists []; rewrite app_nil_r; split; [reflexivity | constructor]).
  - rewrite loop_step_publish.
    assert (C : forall ctl label, label = "LOCKED" \/ label = "UNLOCKED" ->
               exists d', fst (command_step w dev d st ctl label t) = app t d'
                          /\ Forall (loop_action st) d').
    { intros ctl label Hl; unfold command_step.
      destruct (w_device _ _ _ _ _); simpl.
      - eexists; split; [rewrite <- app_assoc; reflexivity|].
        apply Forall_cons; [exact I|]; apply Forall_cons; [|constructor].
        simpl; repeat split; exact Hl.
      - eexists; split; [rewrite <- app_assoc; reflexivity|].
        repeat constructor. }
    destruct (bytes_eqb p LOCK_bytes); [apply C; auto|].
    destruct (bytes_eqb p UNLOCK_bytes); [apply C; auto|].
    destruct (utf8_error_at p 0).
    + exists [ActLogError (ErrUtf8 n)]; split; [reflexivity | repeat constructor].
    + exists []; rewrite app_nil_r; split; [reflexivity | constructor].
  - exists [ActPrint m]; split; [reflexivity | repeat constructor].
Qed.

(** ** Credential resolution *)

(** X5. Without HASS_TOKEN (unset or not valid Unicode), resolution sends
    nothing and takes the four static config values, checking them in the
    order the source evaluates them: host and port (the [expect]s passed to
    [MqttOptions::new]), then the client id ([MqttOptions::new] panics with
    "Invalid client id" on an empty or space-led id), then username and
    password (the [expect]s passed to [set_credentials]).  The first check
    that fails decides the panic message. *)
Theorem static_resolution :
  forall (w : World) (cfg : Config) (t : list Action),
    env_is_ok (w_env w "HASS_TOKEN") = false ->
    (forall h p u pw, mqtt_host cfg = Some h -> mqtt_port cfg = Some p ->
       client_id_ok (mqtt_id cfg) = true ->
       mqtt_username cfg = Some u -> mqtt_password cfg = Some pw ->
       resolve w cfg t = (t, Done (mkCreds h p u pw)))
    /\ (mqtt_host cfg = None -> resolve w cfg t = (t, Panic "No MQTT host found"))
    /\ (mqtt_host cfg <> None -> mqtt_port cfg = None ->
        resolve w cfg t = (t, Panic "No MQTT port found"))
    /\ (mqtt_host cfg <> None -> mqtt_port cfg <> None ->
        client_id_ok (mqtt_id cfg) = false ->
        resolve w cfg t = (t, Panic "Invalid client id"))
    /\ (mqtt_host cfg <> None -> mqtt_port cfg <> None ->
        client_id_ok (mqtt_id cfg) = true -> mqtt_username cfg = None ->
        resolve w cfg t = (t, Panic "No MQTT username found"))
    /\ (mqtt_host cfg <> None -> mqtt_port cfg <> None ->
        client_id_ok (mqtt_id cfg) = true -> mqtt_username cfg <> None ->
        mqtt_password cfg = None ->
        resolve w cfg t = (t, Panic "No MQTT password found")).
Proof.
  intros w cfg t Hh.
  unfold resolve, hass_config; rewrite Hh.
  unfold bind, ret, expect, panic, mqtt_options_new.
  destruct (mqtt_host cfg), (mqtt_port cfg), (client_id_ok (mqtt_id cfg)),
    (mqtt_username cfg), (mqtt_password cfg);
    repeat split; intros;
    repeat match goal with H : Some _ = Some _ |- _ => injection H as <- end;
    try congruence; reflexivity.
Qed.

(** A config with an empty client id and no username. *)
Definition no_id_config : Config :=
  mkConfig 423187757 "192.168.1.100" "Front door" 1 EmptyString
    (Some "broker.local") (Some 1883) None (Some "secret") "uhppote".

Lemma static_resolution_witness :
  resolve (sample_static_world []) no_id_config [] = ([], Panic "Invalid client id").
Proof.
  refine (proj1 (proj2 (proj2 (proj2
    (static_resolution (sample_static_world []) no_id_config [] eq_refl))))
    _ _ eq_refl); discriminate.
Defined.

(** X6. The supervisor step only replaces the four broker fields: the
    device id and address, name, door, client id and base topic of the
    config it returns are those of the file. *)
Theorem hass_config_keeps_other_fields :
  forall (w : World) (cfg cfg' : Config) (t t' : list Action),
    hass_config w cfg t = (t', Done cfg') ->
    uhppote_device_id cfg' = uhppote_device_id cfg
    /\ uhppote_device_ip cfg' = uhppote_device_ip cfg
    /\ name cfg' = name cfg /\ door cfg' = door cfg
    /\ mqtt_id cfg' = mqtt_id cfg /\ base_topic cfg' = base_topic cfg.
Proof.
  intros w cfg cfg' t t'.
  unfold hass_config, bind, ret, exit, panic, emit, unwrap_var.
  destruct (env_is_ok (w_env w "HASS_TOKEN")).
  - destruct (w_env w "SUPERVISOR_TOKEN"); try discriminate.
    destruct (w_http w) as [resp|]; [|discriminate].
    destruct (Z.eqb (status resp) 200); [|discriminate].
    destruct (body resp) as [b|]; [|discriminate].
    destruct (decode_mqtt_config b); [|discriminate].
    destruct (parse_u16 _); [|discriminate].
    intros H; injection H as _ <-; repeat split.
  - intros H; injection H as _ <-; repeat split.
Qed.

Lemma hass_config_keeps_other_fields_witness :
  base_topic (match snd (hass_config addon_world sample_config []) with
              | Done c => c | _ => sample_config end) = "uhppote".
Proof.
  exact (proj2 (proj2 (proj2 (proj2 (proj2
    (hass_config_keeps_other_fields addon_world sample_config
       (mkConfig 423187757 "192.168.1.100" "Front door" 1 "uhppote-mqtt"
          (Some "core-mosquitto") (Some 1883) (Some "addons") (Some "pw") "uhppote")
       [] [supervisor_get "tok"] eq_refl)))))).
Defined.

(** ** What a failed start leaves behind *)

Fixpoint count_http (t : list Action) : nat :=
  match t with
  | [] => 0%nat
  | ActHttpGet _ _ :: t' => S (count_http t')
  | _ :: t' => count_http t'
  end.

Definition no_http (a : Action) : Prop :=
  match a with ActHttpGet _ _ => False | _ => True end.

Lemma count_http_app (t1 t2 : list Action) :
  count_http (app t1 t2) = (count_http t1 + count_http t2)%nat.
Proof.
  induction t1 as [|a t1 IH]; [reflexivity|].
  destruct a; simpl; rewrite ?IH; reflexivity.
Qed.

Lemma count_http_none (t : list Action) : Forall no_http t -> count_http t = 0%nat.
Proof.
  induction 1 as [|a t Ha _ IH]; [reflexivity|].
  destruct a; simpl in *; tauto.
Qed.

Lemma hass_config_trace (w : World) (cfg : Config) (t : list Action) :
  fst (hass_config w cfg t) =
    if env_is_ok (w_env w "HASS_TOKEN") then
      match w_env w "SUPERVISOR_TOKEN" with
      | Present tok => app t [supervisor_get tok]
      | _ => t
      end
    else t.
Proof.
  unfold hass_config, bind, ret, exit, panic, emit, unwrap_var.
  destruct (env_is_ok (w_env w "HASS_TOKEN")); [|reflexivity].
  destruct (w_env w "SUPERVISOR_TOKEN") as [tok| |]; cbn; try reflexivity.
  destruct (w_http w) as [r|]; cbn; [|reflexivity].
  destruct (Z.eqb (status r) 200); cbn; [|reflexivity].
  destruct (body r) as [b|]; cbn; [|reflexivity].
  destruct (decode_mqtt_config b) as [j|]; cbn; [|reflexivity].
  destruct (parse_u16 (port j)); reflexivity.
Qed.

Lemma resolve_trace (w : World) (cfg : Config) (t : list Action) :
  exists d, fst (resolve w cfg t) = app t d
    /\ (d = [] \/ exists tok, d = [supervisor_get tok])
    /\ (env_is_ok (w_env w "HASS_TOKEN") = false -> d = []).
Proof.
  assert (E : fst (resolve w cfg t) = fst (hass_config w cfg t)).
  { unfold resolve, bind at 1.
    destruct (hass_config w cfg t) as [t1 [c|e|m]]; [|reflexivity|reflexivity].
    unfold bind, expect, ret, panic, mqtt_options_new.
    destruct (mqtt_host c), (mqtt_port c), (client_id_ok (mqtt_id c)),
      (mqtt_username c), (mqtt_password c); reflexivity. }
  rewrite E, hass_config_trace.
  destruct (env_is_ok (w_env w "HASS_TOKEN")).
  - destruct (w_env w "SUPERVISOR_TOKEN") as [tok| |].
    + exists [supervisor_get tok]; split; [reflexivity|split; [right; eauto|discriminate]].
    + exists []; rewrite app_nil_r; auto.
    + exists []; rewrite app_nil_r; auto.
  - exists []; rewrite app_nil_r; auto.
Qed.

Lemma loop_step_no_exit (w : World) dev d st ev t e :
  snd (loop_step w dev d st ev t) <> Exit e.
Proof.
  destruct ev as [tp p| | |msg].
  - rewrite loop_step_publish.
    destruct (bytes_eqb p LOCK_bytes); [|destruct (bytes_eqb p UNLOCK_bytes)];
      try (unfold command_step; destruct (w_device _ _ _ _ _);
           [destruct (w_publish_ok _ _)|]; discriminate).
    destruct (utf8_error_at p 0); discriminate.
  - discriminate.
  - discriminate.
  - discriminate.
Qed.

Lemma receive_loop_no_exit (w : World) dev d st evs t e :
  snd (receive_loop w dev d st evs t) <> Exit e.
Proof.
  revert t; induction evs as [|ev evs IH]; intros t; [discriminate|].
  cbn [receive_loop]; unfold bind.
  pose proof (loop_step_no_exit w dev d st ev t e) as H.
  destruct (loop_step w dev d st ev t) as [t1 [u|e1|m]]; simpl in H.
  - apply IH.
  - intros E; injection E as ->; contradiction.
  - discriminate.
Qed.

Lemma main_trace_split (w : World) :
  exists d1 d2, fst (main w []) = app d1 d2
    /\ (d1 = [] \/ exists tok, d1 = [supervisor_get tok])
    /\ (env_is_ok (w_env w "HASS_TOKEN") = false -> d1 = [])
    /\ Forall no_http d2
    /\ (forall e, snd (main w []) = Exit e -> d2 = []).
Proof.
  destruct (loaded_config w) as [cfg|] eqn:Hl.
  2: { destruct (main_no_config w Hl) as [e He]; rewrite He.
       exists [], []; repeat split; auto. }
  unfold loaded_config in Hl.
  destruct (w_config_file w) as [j|] eqn:Hf; [|discriminate].
  destruct (decode_config j) as [c|] eqn:Hd; [|discriminate].
  injection Hl as ->.
  destruct (w_parse_ip w (uhppote_device_ip cfg)) as [ip|] eqn:Hip.
  2: { assert (E : main w [] = ([], Exit ErrAddrParse)).
       { unfold main.
         rewrite (bind_done _ _ [] [] j) by (rewrite Hf; reflexivity); cbv beta zeta.
         rewrite (bind_done _ _ [] [] cfg) by (rewrite Hd; reflexivity); cbv beta zeta.
         unfold bind at 1; rewrite Hip; reflexivity. }
       rewrite E; exists [], []; repeat split; auto. }
  destruct (resolve_trace w cfg []) as [d1 [E1 [H1 H2]]].
  destruct (resolve w cfg []) as [t1 s1] eqn:Hres; simpl in E1; subst t1.
  destruct s1 as [cr|e|m].
  - rewrite (main_after_resolve w j cfg ip d1 cr Hf Hd Hip Hres).
    set (rest := bind (announce w _ _ _ _) _).
    assert (Hr : emits no_http rest).
    { apply emits_bind; [apply emits_announce; exact I|].
      intros u; apply emits_receive_loop; intros; exact I. }
    destruct (Hr d1) as [d2 [E2 F2]].
    exists d1, d2; rewrite E2; repeat split; auto.
    intros e He; exfalso.
    unfold rest, bind in He; rewrite announce_spec in He.
    destruct (w_subscribe_ok w); [|discriminate].
    destruct (w_publish_ok w _); [|discriminate].
    exact (receive_loop_no_exit _ _ _ _ _ _ e He).
  - assert (Em : main w [] = (d1, Exit e)).
    { rewrite (main_after_ip w j cfg ip Hf Hd Hip); unfold bind at 1; rewrite Hres;
      reflexivity. }
    rewrite Em; exists d1, []; rewrite app_nil_r; repeat split; auto.
  - assert (Em : main w [] = (d1, Panic m)).
    { rewrite (main_after_ip w j cfg ip Hf Hd Hip); unfold bind at 1; rewrite Hres;
      reflexivity. }
    rewrite Em; exists d1, []; rewrite app_nil_r; repeat split; auto.
Qed.

(** X7. A run of the program calls reqwest's [send()] at most once (the
    supervisor lookup, with whatever redirects the client follows inside
    that call), and never when HASS_TOKEN is unset or not valid Unicode. *)
Theorem main_http_requests (w : World) :
  (count_http (fst (main w [])) <= 1)%nat
  /\ (env_is_ok (w_env w "HASS_TOKEN") = false -> count_http (fst (main w [])) = 0%nat).
Proof.
  destruct (main_trace_split w) as [d1 [d2 [E [H1 [H2 [F _]]]]]].
  rewrite E, count_http_app, (count_http_none d2 F).
  split.
  - destruct H1 as [->|[tok ->]]; simpl; lia.
  - intros He; rewrite (H2 He); reflexivity.
Qed.

(** X8. When the program stops with an error (the [?] exits of [main]),
    nothing has been sent to the broker or the controller: the only action
    done before is, at most, the supervisor request. *)
Theorem main_exit_trace (w : World) (tr : list Action) (e : Error) :
  main w [] = (tr, Exit e) -> tr = [] \/ exists tok, tr = [supervisor_get tok].
Proof.
  intros H.
  destruct (main_trace_split w) as [d1 [d2 [E [H1 [_ [_ H3]]]]]].
  rewrite H in E, H3; simpl in E, H3.
  rewrite (H3 e eq_refl), app_nil_r in E; subst tr; exact H1.
Qed.

Definition hass_error_world : World :=
  sample_world (Some (config_json "Front door" "uhppote")) hass_env
    (Some (mkResponse 401 None)) [].

Lemma main_exit_trace_witness :
  main hass_error_world [] = ([supervisor_get "tok"], Exit (ErrHassStatus 401))
  /\ ([supervisor_get "tok"] = [] \/ exists tok, [supervisor_get "tok"] = [supervisor_get tok]).
Proof.
  assert (H : main hass_error_world [] = ([supervisor_get "tok"], Exit (ErrHassStatus 401)))
    by (vm_compute; reflexivity).
  split; [exact H | exact (main_exit_trace _ _ _ H)].
Defined.

(** ** Decoding the configuration *)

Definition known_entry (known : list string) (kv : string * JValue) : bool :=
  existsb (String.eqb (fst kv)) known.

Lemma collect_filter (known : list string) (value : FieldValue)
  (es acc : list (string * JValue)) :
  collect known value es acc = collect known value (filter (known_entry known) es) acc.
Proof.
  revert acc; induction es as [|[k v] es IH]; intros acc; [reflexivity|].
  cbn [collect filter].
  change (known_entry known (k, v)) with (existsb (String.eqb k) known).
  destruct (existsb (String.eqb k) known) eqn:Ek; cbn [collect]; rewrite ?Ek; [|apply IH].
  destruct (json_field k acc); [reflexivity|].
  unfold rbind; destruct (value k v); [apply IH | reflexivity].
Qed.

(** X10. Unknown keys of a JSON object are skipped whatever their values:
    the config file and the supervisor's reply decode exactly as the object
    restricted to the struct's own field names (same value or same
    error). *)
Theorem unknown_fields_ignored (es : list (string * JValue)) :
  decode_config (JObj es) = decode_config (JObj (filter (known_entry config_fields) es))
  /\ decode_mqtt_config (JObj es)
     = decode_mqtt_config (JObj (filter (known_entry mqtt_config_fields) es)).
Proof.
  unfold decode_config, decode_mqtt_config, struct_fields.
  rewrite (collect_filter config_fields config_value es []),
    (collect_filter mqtt_config_fields mqtt_config_value es []).
  split; reflexivity.
Qed.

Lemma collect_duplicate (known : list string) (value : FieldValue)
  (es acc : list (string * JValue)) (k : string) :
  In k known ->
  (forall k' v, In k' known -> In (k', v) es -> value k' v = Ok tt) ->
  (2 <= count_key k es + (if json_field k acc then 1 else 0))%nat ->
  exists k', collect known value es acc = Err (DuplicateField k').
Proof.
  intros Hk; revert acc; induction es as [|[k0 v] es IH]; intros acc Hv H; simpl in *.
  - destruct (json_field k acc); lia.
  - assert (Hv' : forall k' v', In k' known -> In (k', v') es -> value k' v' = Ok tt)
      by (intros k' v' H1 H2; apply Hv; [exact H1 | right; exact H2]).
    destruct (existsb (String.eqb k0) known) eqn:Ek.
    + destruct (json_field k0 acc) eqn:Ea; [eauto|].
      apply existsb_eqb_in in Ek.
      rewrite (Hv k0 v Ek (or_introl eq_refl)); simpl.
      apply IH; [exact Hv'|]; rewrite json_field_app.
      destruct (String.eqb k k0) eqn:E.
      * apply String.eqb_eq in E; subst k0; rewrite Ea in *; simpl in *; lia.
      * simpl in H; destruct (json_field k acc); lia.
    + apply IH; [exact Hv'|].
      destruct (String.eqb k k0) eqn:E; [|exact H].
      apply String.eqb_eq in E; subst k0; apply existsb_eqb_in in Hk; congruence.
Qed.

(** X11. A JSON object whose known fields all have their declared types but
    which repeats one of them is refused with a duplicate-field error, for
    the config file and for the supervisor's reply. *)
Theorem duplicate_field_rejected (es : list (string * JValue)) :
  ((forall k v, In k config_fields -> In (k, v) es -> config_value k v = Ok tt) ->
   (exists k, In k config_fields /\ (2 <= count_key k es)%nat) ->
   exists k', decode_config (JObj es) = Err (DuplicateField k'))
  /\ ((forall k v, In k mqtt_config_fields -> In (k, v) es -> mqtt_config_value k v = Ok tt) ->
      (exists k, In k mqtt_config_fields /\ (2 <= count_key k es)%nat) ->
      exists k', decode_mqtt_config (JObj es) = Err (DuplicateField k')).
Proof.
  split; intros Hv [k [Hk Hc]].
  - destruct (collect_duplicate config_fields config_value es [] k Hk Hv) as [k' E];
      [simpl; lia|].
    exists k'; unfold decode_config, struct_fields; rewrite E; reflexivity.
  - destruct (collect_duplicate mqtt_config_fields mqtt_config_value es [] k Hk Hv)
      as [k' E]; [simpl; lia|].
    exists k'; unfold decode_mqtt_config, struct_fields; rewrite E; reflexivity.
Qed.

Definition doubled_port_config : list (string * JValue) :=
  match config_json "Front door" "uhppote" with
  | JObj es => app es [("mqtt_port", JNum 8883)]
  | _ => []
  end.

Lemma duplicate_field_rejected_witness :
  exists k', decode_config (JObj doubled_port_config) = Err (DuplicateField k').
Proof.
  apply (proj1 (duplicate_field_rejected doubled_port_config)).
  - intros k v Hk Hi; vm_compute in Hi;
      repeat destruct Hi as [Hi|Hi]; try contradiction; injection Hi as <- <-;
      reflexivity.
  - exists "mqtt_port"; split; [simpl; tauto | vm_compute; lia].
Defined.

Lemma collect_combine (known ks : list string) (value : FieldValue) (xs : list JValue)
  (acc : list (string * JValue)) (i : nat) :
  List.length xs = List.length ks ->
  (forall k, In k ks -> In k known) -> NoDup ks ->
  (forall k, In k ks -> json_field k acc = None) ->
  collect known value (combine ks xs) acc =
    rbind (seq_fields ks value xs i) (fun _ => Ok (app acc (combine ks xs))).
Proof.
  revert xs acc i; induction ks as [|k ks IH]; intros xs acc i Hl Hin Hnd Hacc.
  - destruct xs; [|discriminate]; simpl; rewrite app_nil_r; reflexivity.
  - destruct xs as [|x xs]; [discriminate|].
    inversion Hnd as [|? ? Hk Hnd']; subst.
    cbn [combine collect seq_fields].
    assert (Ek : existsb (String.eqb k) known = true)
      by (apply existsb_eqb_in, Hin; left; reflexivity).
    rewrite Ek, (Hacc k (or_introl eq_refl)).
    unfold rbind at 1 3; destruct (value k x); [|reflexivity].
    rewrite (IH xs _ (S i)); [| simpl in Hl; lia | | exact Hnd' |].
    + rewrite <- app_assoc; reflexivity.
    + intros k' H'; apply Hin; right; exact H'.
    + intros k' H'; rewrite json_field_app, (Hacc k' (or_intror H')).
      destruct (String.eqb k' k) eqn:E; [|reflexivity].
      apply String.eqb_eq in E; subst; contradiction.
Qed.

Lemma seq_fields_short (ks : list string) (value : FieldValue) (xs : list JValue) (i : nat) :
  (List.length xs < List.length ks)%nat ->
  (forall k x, In (k, x) (combine ks xs) -> value k x = Ok tt) ->
  seq_fields ks value xs i = Err (InvalidLength (i + List.length xs)).
Proof.
  revert xs i; induction ks as [|k ks IH]; intros xs i Hl Hv; [simpl in Hl; lia|].
  destruct xs as [|x xs]; simpl; [rewrite Nat.add_0_r; reflexivity|].
  rewrite (Hv k x (or_introl eq_refl)); simpl.
  rewrite IH; [f_equal; f_equal; lia | simpl in Hl; lia |].
  intros k' x' H; apply Hv; right; exact H.
Qed.

Lemma seq_fields_long (ks : list string) (value : FieldValue) (xs : list JValue) (i : nat) :
  (List.length ks < List.length xs)%nat ->
  (forall k x, In (k, x) (combine ks xs) -> value k x = Ok tt) ->
  seq_fields ks value xs i = Err TrailingCharacters.
Proof.
  revert xs i; induction ks as [|k ks IH]; intros xs i Hl Hv.
  - destruct xs; [simpl in Hl; lia | reflexivity].
  - destruct xs as [|x xs]; [simpl in Hl; lia|]; simpl.
    rewrite (Hv k x (or_introl eq_refl)); simpl.
    apply IH; [simpl in Hl; lia|].
    intros k' x' H; apply Hv; right; exact H.
Qed.

Lemma struct_fields_positional (fields : list string) (value : FieldValue)
  (xs : list JValue) :
  NoDup fields -> List.length xs = List.length fields ->
  struct_fields fields value (JArr xs) = struct_fields fields value (JObj (combine fields xs)).
Proof.
  intros Hnd Hl; cbn [struct_fields].
  rewrite (collect_combine fields fields value xs [] 0 Hl (fun k H => H) Hnd
             (fun k _ => eq_refl)).
  destruct (seq_fields fields value xs 0); reflexivity.
Qed.

Ltac nodup_literal :=
  repeat constructor; simpl; intros H; repeat destruct H as [H|H]; try discriminate; exact H.

(** X12. A config may also be written as a JSON array of its ten values in
    declaration order (the supervisor's reply as an array of seven): an
    array of the right length decodes exactly as the object pairing each
    field name with its value; a shorter array whose values are well typed
    is refused as too short (at its length), a longer one as having
    trailing elements. *)
Theorem positional_form_matches_named (xs : list JValue) :
  (List.length xs = 10%nat ->
   decode_config (JArr xs) = decode_config (JObj (combine config_fields xs)))
  /\ ((forall k x, In (k, x) (combine config_fields xs) -> config_value k x = Ok tt) ->
      ((List.length xs < 10)%nat ->
       decode_config (JArr xs) = Err (InvalidLength (List.length xs)))
      /\ ((10 < List.length xs)%nat -> decode_config (JArr xs) = Err TrailingCharacters))
  /\ (List.length xs = 7%nat ->
      decode_mqtt_config (JArr xs) = decode_mqtt_config (JObj (combine mqtt_config_fields xs)))
  /\ ((forall k x, In (k, x) (combine mqtt_config_fields xs) ->
         mqtt_config_value k x = Ok tt) ->
      ((List.length xs < 7)%nat ->
       decode_mqtt_config (JArr xs) = Err (InvalidLength (List.length xs)))
      /\ ((7 < List.length xs)%nat -> decode_mqtt_config (JArr xs) = Err TrailingCharacters)).
Proof.
  split; [|split; [|split]].
  - intros Hl; unfold decode_config.
    rewrite (struct_fields_positional config_fields config_value xs) by
      (exact Hl || nodup_literal); reflexivity.
  - intros Hv; split; intros Hl; unfold decode_config; cbn [struct_fields].
    + rewrite (seq_fields_short config_fields config_value xs 0 Hl Hv); reflexivity.
    + rewrite (seq_fields_long config_fields config_value xs 0 Hl Hv); reflexivity.
  - intros Hl; unfold decode_mqtt_config.
    rewrite (struct_fields_positional mqtt_config_fields mqtt_config_value xs) by
      (exact Hl || nodup_literal); reflexivity.
  - intros Hv; split; intros Hl; unfold decode_mqtt_config; cbn [struct_fields].
    + rewrite (seq_fields_short mqtt_config_fields mqtt_config_value xs 0 Hl Hv);
        reflexivity.
    + rewrite (seq_fields_long mqtt_config_fields mqtt_config_value xs 0 Hl Hv);
        reflexivity.
Qed.

(** The supervisor's reply without its protocol, as an array. *)
Definition short_reply_array : list JValue :=
  [JStr "core_mosquitto"; JStr "core-mosquitto"; JStr "1883"; JBool false;
   JStr "addons"; JStr "pw"].

Lemma positional_form_matches_named_witness :
  decode_mqtt_config (JArr short_reply_array) = Err (InvalidLength 6).
Proof.
  refine (proj1 (proj2 (proj2 (proj2 (positional_form_matches_named short_reply_array)))
            _) _).
  - intros k x Hi; vm_compute in Hi;
      repeat destruct Hi as [Hi|Hi]; try contradiction; injection Hi as <- <-;
      reflexivity.
  - vm_compute; lia.
Defined.

Lemma decode_config_host_none (es : list (string * JValue)) (c : Config) :
  decode_config (JObj es) = Ok c ->
  json_field "mqtt_host" es = None \/ json_field "mqtt_host" es = Some JNull ->
  mqtt_host c = None.
Proof.
  unfold decode_config, struct_fields, rbind; intros H Hn.
  destruct (collect config_fields config_value es []) as [acc|] eqn:Hc; [|discriminate].
  destruct_results.
  injection H as <-; simpl.
  match goal with E : de_option de_string "mqtt_host" _ = Ok _ |- _ =>
    rewrite (collect_field _ _ _ _ _ Hc "mqtt_host") in E by (simpl; tauto);
    simpl in E; destruct Hn as [Hn|Hn]; rewrite Hn in E; simpl in E; congruence
  end.
Qed.

(** X13. Without HASS_TOKEN, a config file whose [mqtt_host] is absent or
    [null] makes the program panic with "No MQTT host found" before it
    contacts the broker or the controller. *)
Theorem missing_host_panics (w : World) (es : list (string * JValue)) (cfg : Config)
  (ip : IpAddr) :
  w_config_file w = Some (JObj es) -> decode_config (JObj es) = Ok cfg ->
  w_parse_ip w (uhppote_device_ip cfg) = Some ip ->
  env_is_ok (w_env w "HASS_TOKEN") = false ->
  json_field "mqtt_host" es = None \/ json_field "mqtt_host" es = Some JNull ->
  main w [] = ([], Panic "No MQTT host found").
Proof.
  intros Hf Hd Hip He Hn.
  rewrite (main_after_ip w _ cfg ip Hf Hd Hip).
  assert (Hr : resolve w cfg [] = ([], Panic "No MQTT host found")).
  { unfold resolve, hass_config; rewrite He.
    unfold bind at 1, ret; cbv beta iota.
    unfold bind, expect, panic; rewrite (decode_config_host_none es cfg Hd Hn).
    reflexivity. }
  unfold bind at 1; rewrite Hr; reflexivity.
Qed.

Definition config_entries_null_host : list (string * JValue) :=
  [("uhppote_device_id", JNum 423187757);
   ("uhppote_device_ip", JStr "192.168.1.100");
   ("name", JStr "Front door");
   ("door", JNum 1);
   ("mqtt_id", JStr "uhppote-mqtt");
   ("mqtt_host", JNull);
   ("mqtt_port", JNum 1883);
   ("mqtt_username", JStr "mqtt");
   ("mqtt_password", JStr "secret");
   ("base_topic", JStr "uhppote")].

Definition null_host_config : Config :=
  mkConfig 423187757 "192.168.1.100" "Front door" 1 "uhppote-mqtt"
    None (Some 1883) (Some "mqtt") (Some "secret") "uhppote".

Lemma missing_host_panics_witness :
  main (sample_world (Some (JObj config_entries_null_host)) no_env None []) []
    = ([], Panic "No MQTT host found").
Proof.
  apply (missing_host_panics _ config_entries_null_host null_host_config
           [192; 168; 1; 100]).
  - reflexivity.
  - vm_compute; reflexivity.
  - vm_compute; reflexivity.
  - reflexivity.
  - right; reflexivity.
Defined.

(** ** The supervisor's port *)

Lemma digit_value_range (c : ascii) (d : Z) : digit_value c = Some d -> 0 <= d <= 9.
Proof.
  unfold digit_value, in_range.
  destruct ((48 <=? nat_of_ascii c)%nat) eqn:E1,
           ((nat_of_ascii c <=? 57)%nat) eqn:E2; simpl; try discriminate.
  apply Nat.leb_le in E1; apply Nat.leb_le in E2.
  intros H; injection H as <-; lia.
Qed.

Lemma digits_u16_range (s : string) (acc n : Z) :
  0 <= acc <= 65535 -> digits_u16 s acc = Some n -> 0 <= n <= 65535.
Proof.
  revert acc; induction s as [|c s IH]; intros acc Ha; simpl.
  - intros H; injection H as <-; exact Ha.
  - destruct (digit_value c) as [d|] eqn:Ed; [|discriminate].
    apply digit_value_range in Ed.
    destruct (acc * 10 + d <=? 65535) eqn:E; [|discriminate].
    apply Z.leb_le in E; apply IH; lia.
Qed.

Lemma parse_u16_range (s : string) (n : Z) : parse_u16 s = Some n -> 0 <= n <= 65535.
Proof.
  unfold parse_u16; destruct s as [|c rest]; [discriminate|].
  destruct (Ascii.eqb c "+"%char).
  - destruct rest; [discriminate|]; apply digits_u16_range; lia.
  - apply digits_u16_range; lia.
Qed.

Lemma hass_config_reply (w : World) (cfg : Config) (hv tok : string) (b : JValue)
  (jm : MqttConfig) :
  w_env w "HASS_TOKEN" = Present hv -> w_env w "SUPERVISOR_TOKEN" = Present tok ->
  w_http w = Some (mkResponse 200 (Some b)) -> decode_mqtt_config b = Ok jm ->
  hass_config w cfg [] =
    ([supervisor_get tok],
     match parse_u16 (port jm) with
     | Some p => Done {| uhppote_device_id := uhppote_device_id cfg;
                         uhppote_device_ip := uhppote_device_ip cfg;
                         name := name cfg; door := door cfg; mqtt_id := mqtt_id cfg;
                         mqtt_host := Some (host jm); mqtt_port := Some p;
                         mqtt_username := Some (username jm);
                         mqtt_password := Some (password jm);
                         base_topic := base_topic cfg |}
     | None => Exit ErrParseInt
     end).
Proof.
  intros H1 H2 H3 H4.
  unfold hass_config; rewrite H1, H2, H3; simpl.
  unfold bind, unwrap_var, emit, ret, exit; simpl.
  rewrite H4; destruct (parse_u16 (port jm)); reflexivity.
Qed.

(** X14. The supervisor gives the port as a string: when it is not a
    decimal [u16] (empty, a sign other than one leading '+', a non-digit,
    or a value above 65535) startup stops with a parse error after the
    request; otherwise that number, within 0..65535, is the broker port
    handed to [MqttOptions::new] (whose client-id check comes next). *)
Theorem supervisor_port_parsed (w : World) (cfg : Config) (hv tok : string) (b : JValue)
  (jm : MqttConfig) :
  w_env w "HASS_TOKEN" = Present hv -> w_env w "SUPERVISOR_TOKEN" = Present tok ->
  w_http w = Some (mkResponse 200 (Some b)) -> decode_mqtt_config b = Ok jm ->
  (parse_u16 (port jm) = None -> resolve w cfg [] = ([supervisor_get tok], Exit ErrParseInt))
  /\ (forall p, parse_u16 (port jm) = Some p ->
        resolve w cfg [] =
          ([supervisor_get tok],
           if client_id_ok (mqtt_id cfg)
           then Done (mkCreds (host jm) p (username jm) (password jm))
           else Panic "Invalid client id")
        /\ 0 <= p <= 65535).
Proof.
  intros H1 H2 H3 H4.
  pose proof (hass_config_reply w cfg hv tok b jm H1 H2 H3 H4) as Hh.
  split.
  - intros Hp; rewrite Hp in Hh.
    unfold resolve, bind at 1; rewrite Hh; reflexivity.
  - intros p Hp; rewrite Hp in Hh.
    split; [|exact (parse_u16_range _ _ Hp)].
    unfold resolve, bind at 1; rewrite Hh; cbv beta iota.
    unfold bind, expect, ret, panic, mqtt_options_new; simpl.
    destruct (client_id_ok (mqtt_id cfg)); reflexivity.
Qed.

Definition big_port_reply : JValue :=
  JObj [("addon", JStr "core_mosquitto"); ("host", JStr "core-mosquitto");
        ("port", JStr "65536"); ("ssl", JBool false); ("username", JStr "addons");
        ("password", JStr "pw"); ("protocol", JStr "3.1.1")].

Definition big_port_world : World :=
  sample_world (Some (config_json "Front door" "uhppote")) hass_env
    (Some (mkResponse 200 (Some big_port_reply))) [].

Lemma supervisor_port_parsed_witness :
  resolve big_port_world sample_config [] = ([supervisor_get "tok"], Exit ErrParseInt).
Proof.
  refine (proj1 (supervisor_port_parsed big_port_world sample_config "1" "tok"
                   big_port_reply
                   (mkMqttConfig "core_mosquitto" "core-mosquitto" "65536" false
                      "addons" "pw" "3.1.1") eq_refl eq_refl eq_refl _) _).
  - vm_compute; reflexivity.
  - vm_compute; reflexivity.
Defined.

(** ** Payloads that are not UTF-8 *)

Lemma utf8_error_at_bound_fuel (k : nat) (l : list byte) (pos n : nat) :
  (List.length l <= k)%nat -> utf8_error_at l pos = Some n ->
  (pos <= n < pos + List.length l)%nat
  /\ utf8_error_at (firstn (n - pos) l) pos = None.
Proof.
  revert l pos; induction k as [|k IH]; intros l pos Hl H.
  - destruct l; [discriminate | simpl in Hl; lia].
  - destruct l as [|b rest]; [discriminate|].
    simpl in Hl.
    assert (Hstop : forall m, n = pos -> (pos <= n < pos + S m)%nat
                      /\ utf8_error_at (firstn (n - pos) (b :: rest)) pos = None)
      by (intros m ->; rewrite Nat.sub_diag; split; [lia | reflexivity]).
    cbn [utf8_error_at] in H.
    destruct (utf8_width (Byte.to_nat b)) as [|[|[|[|[|w]]]]] eqn:Hw.
    + injection H as <-; apply Hstop; reflexivity.
    + destruct (IH rest (S pos) ltac:(lia) H) as [Hb Hp].
      replace (n - pos)%nat with (S (n - S pos)) by lia.
      simpl List.length; split; [lia|].
      cbn [firstn utf8_error_at]; rewrite Hw; exact Hp.
    + destruct rest as [|c1 r]; [injection H as <-; apply Hstop; reflexivity|].
      destruct (second_ok (Byte.to_nat b) c1) eqn:Hs;
        [|injection H as <-; apply Hstop; reflexivity].
      simpl in Hl.
      destruct (IH r (pos + 2)%nat ltac:(lia) H) as [Hb Hp].
      replace (n - pos)%nat with (S (S (n - (pos + 2)))) by lia.
      simpl List.length; split; [lia|].
      cbn [firstn utf8_error_at]; rewrite Hw, Hs; exact Hp.
    + destruct rest as [|c1 [|c2 r]];
        try (injection H as <-; apply Hstop; reflexivity).
      destruct (second_ok (Byte.to_nat b) c1 && is_cont c2) eqn:Hs;
        [|injection H as <-; apply Hstop; reflexivity].
      simpl in Hl.
      destruct (IH r (pos + 3)%nat ltac:(lia) H) as [Hb Hp].
      replace (n - pos)%nat with (S (S (S (n - (pos + 3))))) by lia.
      simpl List.length; split; [lia|].
      cbn [firstn utf8_error_at]; rewrite Hw, Hs; exact Hp.
    + destruct rest as [|c1 [|c2 [|c3 r]]];
        try (injection H as <-; apply Hstop; reflexivity).
      destruct (second_ok (Byte.to_nat b) c1 && is_cont c2 && is_cont c3) eqn:Hs;
        [|injection H as <-; apply Hstop; reflexivity].
      simpl in Hl.
      destruct (IH r (pos + 4)%nat ltac:(lia) H) as [Hb Hp].
      replace (n - pos)%nat with (S (S (S (S (n - (pos + 4)))))) by lia.
      simpl List.length; split; [lia|].
      cbn [firstn utf8_error_at]; rewrite Hw, Hs; exact Hp.
    + injection H as <-; apply Hstop; reflexivity.
Qed.

(** X15. A payload that is not valid UTF-8 (and so not a command) is only
    logged: the receive loop records a decode error whose offset lies inside
    the payload, the bytes before that offset are valid UTF-8, and nothing
    else is done. *)
Theorem invalid_utf8_logged (w : World) (dev : Device) (d : Z) (st tp : string)
  (p : list byte) (t : list Action) (n : nat) :
  utf8_error_at p 0 = Some n ->
  loop_step w dev d st (EvIncomingPublish tp p) t = (app t [ActLogError (ErrUtf8 n)], Done tt)
  /\ (n < List.length p)%nat /\ utf8_error_at (firstn n p) 0 = None.
Proof.
  intros H.
  destruct (utf8_error_at_bound_fuel (List.length p) p 0 n (le_n _) H) as [Hb Hp].
  rewrite Nat.sub_0_r in Hp.
  split; [|split; [lia | exact Hp]].
  rewrite loop_step_publish.
  destruct (bytes_eqb p LOCK_bytes) eqn:E1.
  { apply bytes_eqb_true in E1; subst p; discriminate. }
  destruct (bytes_eqb p UNLOCK_bytes) eqn:E2.
  { apply bytes_eqb_true in E2; subst p; discriminate. }
  rewrite H; reflexivity.
Qed.

Definition bad_payload : list byte := [x4c; x4f; xc3; x28].

Lemma invalid_utf8_logged_witness :
  loop_step (sample_static_world []) sample_device 1 "uhppote/state"
    (EvIncomingPublish "uhppote/command" bad_payload) []
  = ([ActLogError (ErrUtf8 2)], Done tt).
Proof.
  exact (proj1 (invalid_utf8_logged (sample_static_world []) sample_device 1
    "uhppote/state" "uhppote/command" bad_payload [] 2 eq_refl)).
Defined.

Lemma main_http_requests_witness :
  count_http (fst (main (sample_static_world []) [])) = 0%nat.
Proof.
  exact (proj2 (main_http_requests (sample_static_world [])) eq_refl).
Defined.
